(** * segeval: Fleiss' Pi and WindowDiff

    A shallow embedding of [segeval/agreement/pi.py] and
    [segeval/window/WindowDiff.py], with the properties of the
    specification stated over it.

    Conventions of the embedding:
    - a Python [int] is a [Z]; a segment label is an [int];
    - a [decimal.Decimal] is the rational it denotes ([Q]); every
      arithmetic operation of the decimal module rounds its exact result
      with the rounding of the active context, which is a parameter
      [rnd] of the development ([round_prec 28] is the default context);
    - a raised exception is the [Raise] branch of [result];
    - a [dict] that the code iterates over is the list of its
      (key, value) pairs in iteration order; [kwargs], which is only
      read and updated by key, is a [gmap]. *)

From Stdlib Require Import ZArith QArith Qround List Bool Lia Lqa.
From stdpp Require Import base gmap strings list.
Import ListNotations.

Local Open Scope Z_scope.

(** ** Python runtime *)

Module Py.

(** The exceptions the two modules can raise, or have raised for them
    by the decimal module and by the builtins. *)
Inductive exn : Type :=
| KeyError (key : string)
| IndexError
| ValueError
| Exception (msg : string)
| SegmentationMetricError (msg : string)
| MalformedSegmentationError
| InvalidOperation
| DivisionByZero.

Inductive result (A : Type) : Type :=
| Return (a : A)
| Raise (e : exn).
Arguments Return {A} a.
Arguments Raise {A} e.

Definition bind {A B} (m : result A) (k : A -> result B) : result B :=
  match m with
  | Return a => k a
  | Raise e => Raise e
  end.

(** The two exceptions of a division by zero. *)
Definition division_error (e : exn) : Prop :=
  e = InvalidOperation \/ e = DivisionByZero.

Definition returns {A} (m : result A) : Prop := exists a, m = Return a.

(** [for x in xs: s = body x s], where the body may raise. *)
Fixpoint for_each {A S} (xs : list A) (body : A -> S -> result S) (s : S)
  : result S :=
  match xs with
  | [] => Return s
  | x :: xs' => bind (body x s) (for_each xs' body)
  end.

(** [len(l)] *)
Definition len {A} (l : list A) : Z := Z.of_nat (length l).

(** [xrange(a, b)] *)
Definition xrange (a b : Z) : list Z :=
  map (fun i => a + Z.of_nat i) (seq 0 (Z.to_nat (b - a))).

(** A slice bound as [l[a:b]] reads it: a negative bound counts from the
    end, and every bound is clipped to [0 .. len(l)]. *)
Definition slice_bound (n i : Z) : Z :=
  if i <? 0 then Z.max 0 (i + n) else Z.min i n.

(** [l[a:b]] *)
Definition slice {A} (l : list A) (a b : Z) : list A :=
  let a' := slice_bound (len l) a in
  let b' := slice_bound (len l) b in
  firstn (Z.to_nat (b' - a')) (skipn (Z.to_nat a') l).

(** [[x] * n]: empty when [n] is not positive. *)
Definition times {A} (x : A) (n : Z) : list A := repeat x (Z.to_nat n).

(** [zip(a, b)] (Python 2: a list, as long as the shorter argument). *)
Definition zip {A B} (a : list A) (b : list B) : list (A * B) := combine a b.

(** [sum(l)] over ints. *)
Definition sum (l : list Z) : Z := fold_left Z.add l 0.

(** [a is not b] for two ints that come from two separate calls of
    [len]: CPython keeps one object for each of the ints from -5 to 256
    and allocates a new one for any other result, so that two equal
    lengths are the same object only in that range. *)
Definition small_int (a : Z) : bool := (-5 <=? a) && (a <=? 256).
Definition is_not (a b : Z) : bool := negb (a =? b) || negb (small_int a).

(** Values passed as keyword arguments, and their truth value. *)
Inductive value : Type :=
| VNone
| VBool (b : bool)
| VInt (n : Z)
| VStr (s : string).

Definition truthy (v : value) : bool :=
  match v with
  | VNone => false
  | VBool b => b
  | VInt n => negb (n =? 0)
  | VStr EmptyString => false
  | VStr _ => true
  end.

End Py.

Import Py.

(** [result] is a monad: [x ← m; k] runs [m] and, unless it raised,
    goes on with [k]. *)
#[global] Instance result_ret : MRet result := @Return.
#[global] Instance result_bind : MBind result :=
  fun A B k m => bind m k.

(** ** decimal.Decimal *)

Module Dec.

(** Rounding of a rational to the nearest integer, ties to even
    ([ROUND_HALF_EVEN]). *)
Definition round_half_even (x : Q) : Z :=
  let f := Qfloor x in
  let r := (x - inject_Z f)%Q in
  match (r ?= 1 # 2)%Q with
  | Lt => f
  | Gt => f + 1
  | Eq => if Z.even f then f else f + 1
  end.

(** [10 ^ e] as a rational, for any integer [e]. *)
Definition pow10 (e : Z) : Q :=
  if e <? 0 then (1 # Z.to_pos (10 ^ (- e)))%Q else inject_Z (10 ^ e).

(** The largest [e] from [e0] downwards, [fuel] steps at most, with
    [10 ^ e <= x]. *)
Fixpoint exponent_from (fuel : nat) (e0 : Z) (x : Q) : Z :=
  match fuel with
  | O => e0
  | S fuel' =>
      if Qle_bool (pow10 e0) x then e0 else exponent_from fuel' (e0 - 1) x
  end.

(** The exponent [e] of the leading digit of a positive rational:
    [10 ^ e <= x < 10 ^ (e + 1)]. It lies between the two bounds that
    the binary logarithms of the numerator and of the denominator
    give. *)
Definition exponent (x : Q) : Z :=
  let hi := Z.log2 (Qnum x) + 1 in
  let lo := - (Z.log2 (Zpos (Qden x)) + 1) in
  exponent_from (Z.to_nat (hi - lo)) hi x.

(** A positive rational rounded to [prec] significant digits, ties to
    even: with [x = c * 10 ^ e] and [1 <= c < 10], the coefficient
    [c * 10 ^ (prec - 1)] is rounded to an integer. *)
Definition round_positive (prec : Z) (x : Q) : Q :=
  let e := exponent x in
  let unit_ := inject_Z (10 ^ (prec - 1)) in
  (inject_Z (round_half_even (x / pow10 e * unit_)) * pow10 e / unit_)%Q.

(** Rounding to [prec] significant digits, ties to even: what a context
    of precision [prec] does to the exact result of an operation. *)
Definition round_prec (prec : Z) (x : Q) : Q :=
  match (x ?= 0)%Q with
  | Eq => 0%Q
  | Gt => Qred (round_positive prec x)
  | Lt => Qred (- round_positive prec (- x))
  end.

Section Context.

(** The rounding of the active context. *)
Variable rnd : Q -> Q.

(** [Decimal(n)] for an int [n]: exact, whatever the context. *)
Definition of_int (n : Z) : Q := inject_Z n.

Definition add (x y : Q) : Q := rnd (x + y).
Definition sub (x y : Q) : Q := rnd (x - y).

(** [x / y]. The default context traps both signals of a division by
    zero: [0 / 0] raises [InvalidOperation], [x / 0] raises
    [DivisionByZero]. *)
Definition div (x y : Q) : result Q :=
  if Qeq_bool y 0 then
    Raise (if Qeq_bool x 0 then InvalidOperation else DivisionByZero)
  else Return (rnd (x / y)).

(** [x ** 2] *)
Definition square (x : Q) : Q := rnd (x * x).

(** [sum(l)] over Decimals: starts from the int [0] and adds from the
    left, each addition rounding. *)
Definition sum (l : list Q) : Q := fold_left add l 0%Q.

End Context.

End Dec.

(** ** segeval/window/WindowDiff.py *)

Module WindowDiff.

Section Model.

(** The rounding of the decimal context the metric runs in. *)
Variable rnd : Q -> Q.

(** The two helpers that [WindowDiff.py] imports from its package;
    [window_diff] is embedded over any implementation of them. *)
Variable compute_window_size : list Z -> result Z.
Variable convert_masses_to_positions : list Z -> result (list Z).

(** [zip( *pairs )]: the firsts and the seconds of a list of pairs; the
    unpacking [ref_part, hyp_part = ...] needs exactly two tuples, which
    an empty list does not give. *)
Definition unzip2 (pairs : list (Z * Z)) : result (list Z * list Z) :=
  match pairs with
  | [] => Raise ValueError
  | _ => Return (map fst pairs, map snd pairs)
  end.

(** [t[i]] *)
Definition item (t : list Z) (i : nat) : result Z :=
  match t !! i with
  | Some x => Return x
  | None => Raise IndexError
  end.

(** The body of [for j in xrange(0, len(window)-1)]. *)
Definition pair_step (window : list (Z * Z)) (j : Z) (counts : Z * Z)
  : result (Z * Z) :=
  let '(ref_boundaries, hyp_boundaries) := counts in
  '(ref_part, hyp_part) ← unzip2 (slice window j (j + 2));
  r0 ← item ref_part 0; r1 ← item ref_part 1;
  let ref_boundaries :=
    if negb (r0 =? r1) then ref_boundaries + 1 else ref_boundaries in
  h0 ← item hyp_part 0; h1 ← item hyp_part 1;
  let hyp_boundaries :=
    if negb (h0 =? h1) then hyp_boundaries + 1 else hyp_boundaries in
  Return (ref_boundaries, hyp_boundaries).

(** The inner loop: the boundaries of the reference and of the
    hypothesis in one window. *)
Definition count_boundaries (window : list (Z * Z)) : result (Z * Z) :=
  for_each (xrange 0 (len window - 1)) (pair_step window) (0, 0).

(** The body of [for i in xrange(0, len(units_ref_hyp) - window_size + 1)]. *)
Definition window_step (units_ref_hyp : list (Z * Z)) (window_size : Z)
    (i : Z) (sum_differences : Z) : result Z :=
  let window := slice units_ref_hyp i (i + window_size) in
  '(ref_boundaries, hyp_boundaries) ← count_boundaries window;
  Return (if negb (ref_boundaries =? hyp_boundaries)
          then sum_differences + 1 else sum_differences).

(** The pairs of units the window slides over. *)
Definition units (lamprier_et_al_2007_fix : bool) (phantom_size : Z)
    (reference_positions hypothesis_positions : list Z) : list (Z * Z) :=
  if negb lamprier_et_al_2007_fix then
    zip reference_positions hypothesis_positions
  else
    let phantom := times 0 phantom_size in
    zip (phantom ++ reference_positions ++ phantom)
        (phantom ++ hypothesis_positions ++ phantom).

(** The sliding loop: the number of windows in which the two
    segmentations do not have the same number of boundaries. *)
Definition slide (units_ref_hyp : list (Z * Z)) (window_size : Z) : result Z :=
  for_each (xrange 0 (len units_ref_hyp - window_size + 1))
           (window_step units_ref_hyp window_size) 0.

(** The normaliser [n] of the final division. *)
Definition normaliser (lamprier_et_al_2007_fix : bool)
    (reference_positions : list Z) (phantom_size : Z) : Z :=
  let n := len reference_positions + 1 in
  if lamprier_et_al_2007_fix then n + phantom_size else n.

(** [if window_size is None: window_size = compute_window_size(...)] *)
Definition window_size_used (window_size : option Z)
    (reference_positions : list Z) : result Z :=
  match window_size with
  | None => compute_window_size reference_positions
  | Some k => Return k
  end.

(** [window_diff] once both segmentations are position sequences. *)
Definition window_diff_positions
    (hypothesis_positions reference_positions : list Z)
    (window_size : option Z) (one_minus lamprier_et_al_2007_fix : bool)
  : result Q :=
  if negb (len reference_positions =? len hypothesis_positions) then
    Raise (SegmentationMetricError
             "Reference and hypothesis segmentations differ in length.")
  else
    window_size ← window_size_used window_size reference_positions;
    let phantom_size := window_size - 1 in
    let units_ref_hyp :=
      units lamprier_et_al_2007_fix phantom_size
            reference_positions hypothesis_positions in
    sum_differences ← slide units_ref_hyp window_size;
    let n := normaliser lamprier_et_al_2007_fix reference_positions
                        phantom_size in
    win_diff ← Dec.div rnd (Dec.of_int sum_differences)
                           (Dec.of_int (n - window_size));
    if negb one_minus then Return win_diff
    else Return (Dec.sub rnd 1 win_diff).

(** [reference_positions] or [hypothesis_positions] after the optional
    conversion from masses. *)
Definition positions (convert_from_masses : bool) (segmentation : list Z)
  : result (list Z) :=
  if convert_from_masses then convert_masses_to_positions segmentation
  else Return segmentation.

Definition window_diff (hypothesis_positions reference_positions : list Z)
    (window_size : option Z)
    (one_minus lamprier_et_al_2007_fix convert_from_masses : bool)
  : result Q :=
  reference_positions ← positions convert_from_masses reference_positions;
  hypothesis_positions ← positions convert_from_masses hypothesis_positions;
  window_diff_positions hypothesis_positions reference_positions
                        window_size one_minus lamprier_et_al_2007_fix.

End Model.

(** *** The metric as the specification words it *)

(** The number of boundaries of a sequence of labels: the adjacent
    units whose labels differ. *)
Fixpoint boundaries (xs : list Z) : Z :=
  match xs with
  | a :: ((b :: _) as rest) =>
      (if negb (a =? b) then 1 else 0) + boundaries rest
  | _ => 0
  end.

(** The window of [k] units that starts at unit [i]. *)
Definition window (xs : list Z) (i k : nat) : list Z := firstn k (skipn i xs).


(** A sequence with its sentinel units, when the fix is applied. *)
Definition padded (lamprier_et_al_2007_fix : bool) (window_size : Z)
    (xs : list Z) : list Z :=
  if lamprier_et_al_2007_fix
  then repeat 0 (Z.to_nat (window_size - 1)) ++ xs
       ++ repeat 0 (Z.to_nat (window_size - 1))
  else xs.

(** The same count over the slices that the code takes, for any
    integer window size. *)
Definition differ (ref hyp : list Z) (k i : Z) : bool :=
  negb (boundaries (slice ref i (i + k)) =? boundaries (slice hyp i (i + k))).

Definition mismatches (ref hyp : list Z) (k : Z) : Z :=
  len (List.filter (differ ref hyp k) (xrange 0 (len ref - k + 1))).

(** The last division and the optional complement, for a given count
    of mismatches. *)
Definition score (rnd : Q -> Q) (mismatch n k : Z) (one_minus : bool)
  : result Q :=
  win_diff ← Dec.div rnd (Dec.of_int mismatch) (Dec.of_int (n - k));
  if negb one_minus then Return win_diff else Return (Dec.sub rnd 1 win_diff).

End WindowDiff.

(** ** segeval/agreement/pi.py *)

Module Pi.

(** A [dict] in iteration order. *)
Definition keys {K V} (d : list (K * V)) : list K := map fst d.
Definition values {K V} (d : list (K * V)) : list V := map snd d.

(** [d[key]] for keyword arguments. *)
Definition getitem (d : gmap string value) (key : string) : result value :=
  match d !! key with
  | Some v => Return v
  | None => Raise (KeyError key)
  end.

(** [l[0]] *)
Definition first {A} (l : list A) : result A :=
  match l with
  | x :: _ => Return x
  | [] => Raise IndexError
  end.

(** A dataset: coder -> item -> masses. *)
Definition dataset : Type := list (string * list (string * list Z)).

(** What the metric returns: [pi], or the pair [A_a, A_e]. *)
Inductive outcome : Type :=
| Score (pi : Q)
| Parts (A_a A_e : Q).

Section Model.

(** The rounding of the decimal context the metric runs in. *)
Variable rnd : Q -> Q.

(** [__actual_agreement_linear__] is imported from the package; the
    metric is embedded over any implementation of it. It returns the
    numerators and the denominators of the compared pairs, a third
    component that the metric drops, and for each coder the pairs
    (boundaries, total boundaries) of that coder's items. Numerators,
    denominators and boundaries are counts, hence ints. *)
Variable other : Type.
Variable __actual_agreement_linear__ :
  dataset -> gmap string value ->
  result (list Z * list Z * other * list (string * list (Z * Z))).

(** The body of [for item in boundaries_info]. *)
Definition item_step (item : Z * Z) (p_e_segs : list Q) : result (list Q) :=
  let '(boundaries, total_boundaries) := item in
  p_e_seg ← Dec.div rnd (Dec.of_int boundaries) (Dec.of_int total_boundaries);
  Return (p_e_segs ++ [p_e_seg]).

(** The body of [for boundaries_info in coders_boundaries.values()]. *)
Definition coder_step (boundaries_info : list (Z * Z)) (p_e_segs : list Q)
  : result (list Q) :=
  for_each boundaries_info item_step p_e_segs.

(** The check on the number of items of each coder. *)
Definition unequal_items (items_masses : dataset) (num_items : Z) : bool :=
  0 <? len (List.filter
              (fun coder_segs => is_not (len (values coder_segs)) num_items)
              (values items_masses)).

(** What follows the call of [__actual_agreement_linear__]. *)
Definition finish (return_parts : value)
    (all_numerators all_denominators : list Z)
    (coders_boundaries : list (string * list (Z * Z))) : result outcome :=
  A_a ← Dec.div rnd (Dec.of_int (Py.sum all_numerators))
                    (Dec.of_int (Py.sum all_denominators));
  p_e_segs ← for_each (values coders_boundaries) coder_step [];
  P_e_seg ← Dec.div rnd (Dec.sum rnd p_e_segs) (Dec.of_int (len p_e_segs));
  let A_e := Dec.square rnd P_e_seg in
  pi ← Dec.div rnd (Dec.sub rnd A_a A_e) (Dec.sub rnd 1 A_e);
  if truthy return_parts then Return (Parts A_a A_e) else Return (Score pi).

Definition __fleiss_pi_linear__ (items_masses : dataset)
    (kwargs : gmap string value) : result outcome :=
  let metric_kwargs := <["return_parts" := VBool true]> kwargs in
  return_parts ← getitem kwargs "return_parts";
  coder_segs ← first (values items_masses);
  let num_items := len (keys coder_segs) in
  if unequal_items items_masses num_items then
    Raise (Exception "Unequal number of items contained.")
  else
    '(all_numerators, all_denominators, _, coders_boundaries) ←
      __actual_agreement_linear__ items_masses metric_kwargs;
    finish return_parts all_numerators all_denominators coders_boundaries.

End Model.

(** *** The coefficient as the specification words it *)

(** Every (coder, item) observation: the pairs (boundary count, total
    boundary positions), coder after coder. *)
Definition observations (coders_boundaries : list (string * list (Z * Z)))
  : list (Z * Z) :=
  concat (values coders_boundaries).

Section Formulas.

Variable rnd : Q -> Q.

(** The chance of a boundary for one observation. *)
Definition chance (o : Z * Z) : Q := rnd (inject_Z (fst o) / inject_Z (snd o)).

(** [P_e_seg]: the mean of the chances of all observations. *)
Definition mean_chance (obs : list (Z * Z)) : Q :=
  rnd (Dec.sum rnd (map chance obs) / inject_Z (len obs)).

(** [A_e] *)
Definition expected_agreement (obs : list (Z * Z)) : Q :=
  let P_e_seg := mean_chance obs in rnd (P_e_seg * P_e_seg).

(** [A_a]: the sum of the numerators over the sum of the denominators. *)
Definition observed_agreement (numerators denominators : list Z) : Q :=
  rnd (inject_Z (Py.sum numerators) / inject_Z (Py.sum denominators)).

(** What [A_a] is not: the mean of the ratios of the compared pairs. *)
Definition mean_of_ratios (numerators denominators : list Z) : Q :=
  rnd (Dec.sum rnd (map chance (zip numerators denominators))
       / inject_Z (len numerators)).

(** [pi] *)
Definition coefficient (A_a A_e : Q) : Q :=
  rnd (rnd (A_a - A_e) / rnd (1 - A_e)).

(** The inputs for which a division of the coefficient has a zero
    divisor. *)
Definition degenerate (denominators : list Z) (obs : list (Z * Z)) : Prop :=
  Py.sum denominators = 0
  \/ Exists (fun o => snd o = 0) obs
  \/ obs = []
  \/ expected_agreement obs == 1.

End Formulas.

(** Every coder has [n] items. *)
Definition equal_items (items_masses : dataset) (n : Z) : Prop :=
  Forall (fun coder => len (snd coder) = n) items_masses.

End Pi.

(** ** The rest of the package

    The helpers that the two modules import, written from their
    description; the theorems hold for any implementation of them, and
    these ones serve where a statement needs a definite one. *)

Module Package.

Import Pi.

(** Modelled from the spec: [convert_masses_to_positions] is imported
    from the package and is not part of the two modules; the
    specification has it expand each mass into that many copies of a
    label that starts at 1 and grows by one per segment, and fail on a
    mass that is not positive. *)
Fixpoint masses_to_positions_from (label : Z) (masses : list Z)
  : result (list Z) :=
  match masses with
  | [] => Return []
  | m :: masses' =>
      if m <=? 0 then Raise MalformedSegmentationError
      else rest ← masses_to_positions_from (label + 1) masses';
           Return (times label m ++ rest)
  end.
Definition masses_to_positions : list Z -> result (list Z) :=
  masses_to_positions_from 1.

(** The lengths of the maximal runs of equal labels. *)
Fixpoint positions_to_masses (positions : list Z) : list Z :=
  match positions with
  | [] => []
  | a :: rest =>
      match head rest, positions_to_masses rest with
      | Some b, m :: ms => if a =? b then (m + 1) :: ms else 1 :: m :: ms
      | _, _ => [1]
      end
  end.

(** Modelled from the spec: [compute_window_size] is imported from the
    package and is not part of the two modules; the specification has
    it be half the mean length of the reference segments, rounded to
    the nearest integer (a half rounds up here) and no less than 2. It
    has no value for a segmentation without segments. *)
Definition window_size_of (reference_positions : list Z) : result Z :=
  let masses := positions_to_masses reference_positions in
  if len masses =? 0 then Raise DivisionByZero
  else
    let half_mean := (inject_Z (Py.sum masses) / inject_Z (len masses) / 2)%Q in
    Return (Z.max 2 (Qfloor (half_mean + (1 # 2)))).

(** The default decimal context: 28 significant digits, ties to even. *)
Definition default_rounding : Q -> Q := Dec.round_prec 28.

(** Where two adjacent units have different labels. *)
Fixpoint boundary_flags (positions : list Z) : list bool :=
  match positions with
  | a :: ((b :: _) as rest) => negb (a =? b) :: boundary_flags rest
  | _ => []
  end.

Definition count_true (l : list bool) : Z := len (List.filter id l).

(** The masses of an item as one coder has them, as boundary flags. *)
Definition flags_of (coder_segs : list (string * list Z)) (item : string)
  : result (list bool) :=
  match List.find (fun kv => String.eqb (fst kv) item) coder_segs with
  | None => Raise (KeyError item)
  | Some (_, masses) =>
      positions ← masses_to_positions masses;
      Return (boundary_flags positions)
  end.

(** The unordered pairs of a list, in order. *)
Fixpoint pairs {A} (l : list A) : list (A * A) :=
  match l with
  | [] => []
  | x :: rest => map (pair x) rest ++ pairs rest
  end.

(** [mapM] *)
Fixpoint traverse {A B} (f : A -> result B) (l : list A) : result (list B) :=
  match l with
  | [] => Return []
  | x :: rest => y ← f x; ys ← traverse f rest; Return (y :: ys)
  end.

(** Modelled from the spec: [__actual_agreement_linear__] is imported
    from the package and is not part of the two modules; the
    specification has it count, for every item and every unordered pair
    of coders, the boundary positions on which the two agree
    (numerator) out of the positions compared (denominator), and
    record, for every coder and item, the number of boundaries the
    coder placed and the number of boundary positions of the item (its
    number of units less one). *)
Definition actual_agreement (items_masses : dataset)
    (metric_kwargs : gmap string value)
  : result (list Z * list Z * unit * list (string * list (Z * Z))) :=
  let items := match values items_masses with
               | coder_segs :: _ => keys coder_segs
               | [] => []
               end in
  compared ← traverse
    (fun '(item, (a, b)) =>
       fa ← flags_of a item; fb ← flags_of b item;
       Return (count_true (map (fun '(x, y) => Bool.eqb x y) (zip fa fb)),
               len (zip fa fb)))
    (list_prod items (pairs (values items_masses)));
  coders_boundaries ← traverse
    (fun '(coder, coder_segs) =>
       info ← traverse
         (fun item => f ← flags_of coder_segs item;
                      Return (count_true f, len f))
         items;
       Return (coder, info))
    items_masses;
  Return (map fst compared, map snd compared, tt, coders_boundaries).

End Package.

(** ** Sample inputs *)

Module Samples.

Import Pi.

Local Open Scope string_scope.

(** Two coders, two items of ten units each; they disagree on both. *)
Definition two_coders : dataset :=
  [("a", [("i1", [3; 7]); ("i2", [5; 5])]);
   ("b", [("i1", [4; 6]); ("i2", [5; 2; 3])])].

(** One coder alone. *)
Definition one_coder : dataset :=
  [("a", [("i1", [3; 7]); ("i2", [5; 5])])].

(** A coder with two items and a coder with one. *)
Definition ragged : dataset :=
  [("a", [("i1", [3; 7]); ("i2", [5; 5])]); ("b", [("i1", [4; 6])])].

(** Two coders who put a boundary at the only boundary position of the
    only item. *)
Definition all_boundaries : dataset :=
  [("a", [("i1", [1; 1])]); ("b", [("i1", [1; 1])])].

Definition want_score : gmap string value := {[ "return_parts" := VBool false ]}.
Definition want_parts : gmap string value := {[ "return_parts" := VBool true ]}.

(** Two coders with the same segmentation of both items. *)
Definition agreeing_coders : dataset :=
  [("a", [("i1", [3; 7]); ("i2", [5; 5])]);
   ("b", [("i1", [3; 7]); ("i2", [5; 5])])].

(** The names i, ii, iii, ... *)
Fixpoint tally (n : nat) : string :=
  match n with
  | O => EmptyString
  | S n' => String.append "i" (tally n')
  end.

(** Two coders with the same 257 items of two units. *)
Definition many_items : dataset :=
  let items := map (fun n => (tally (S n), [1; 1])) (seq 0 257) in
  [("a", items); ("b", items)].

(** Two coders with the same 257 items of three units, a boundary
    after the first unit of each. *)
Definition many_items_of_three : dataset :=
  let items := map (fun n => (tally (S n), [1; 2])) (seq 0 257) in
  [("a", items); ("b", items)].

(** Eight units in one segment, and in eight. *)
Definition one_segment : list Z := [1; 1; 1; 1; 1; 1; 1; 1].
Definition eight_segments : list Z := [1; 2; 3; 4; 5; 6; 7; 8].

(** Eight units with a boundary before the last. *)
Definition late_boundary : list Z := [1; 1; 1; 1; 1; 1; 1; 2].

End Samples.

Import WindowDiff Pi Package Samples.

(** * Properties *)

(** ** Lists, ranges and slices *)

Section PyFacts.

Context {A B S : Type}.

Lemma len_nonneg (l : list A) : 0 <= len l.
Proof. unfold len. lia. Qed.

Lemma len_app (l1 l2 : list A) : len (l1 ++ l2) = len l1 + len l2.
Proof. unfold len. rewrite length_app. lia. Qed.

Lemma len_zip (a : list A) (b : list B) :
  length a = length b -> len (zip a b) = len a.
Proof.
  intros E. unfold len, zip. rewrite length_combine, E, Nat.min_id. reflexivity.
Qed.

Lemma len_map (f : A -> B) (l : list A) : len (map f l) = len l.
Proof. unfold len. rewrite length_map. reflexivity. Qed.

Lemma xrange_empty (a b : Z) : b <= a -> xrange a b = [].
Proof.
  intros H. unfold xrange. replace (Z.to_nat (b - a)) with 0%nat by lia.
  reflexivity.
Qed.

Lemma xrange_0 (n : nat) : xrange 0 (Z.of_nat n) = map Z.of_nat (seq 0 n).
Proof.
  unfold xrange. rewrite Z.sub_0_r, Nat2Z.id. apply map_ext. intros; lia.
Qed.

(** A loop that adds one to a counter for the elements that satisfy a
    test counts them. *)
Lemma for_each_count (xs : list A) (body : A -> Z -> result Z)
    (test : A -> bool) (s : Z) :
  (forall x s', In x xs ->
     body x s' = Return (if test x then s' + 1 else s')) ->
  for_each xs body s = Return (s + len (List.filter test xs)).
Proof.
  revert s. induction xs as [|x xs IH]; intros s H.
  - simpl. unfold len. simpl. f_equal. lia.
  - simpl. rewrite H by (left; reflexivity). simpl.
    rewrite IH by (intros y s' Hy; apply H; right; exact Hy).
    f_equal. unfold len. destruct (test x); simpl; lia.
Qed.

(** A slice between two bounds that are not negative. *)
Lemma slice_nonneg (l : list A) (a b : Z) :
  0 <= a -> 0 <= b ->
  slice l a b = firstn (Z.to_nat (b - a)) (skipn (Z.to_nat a) l).
Proof.
  intros Ha Hb. unfold slice, slice_bound.
  destruct (Z.ltb_spec a 0) as [?|_]; [lia|].
  destruct (Z.ltb_spec b 0) as [?|_]; [lia|].
  unfold len.
  destruct (Z.le_gt_cases a (Z.of_nat (length l))) as [Hal|Hal].
  - rewrite (Z.min_l a) by lia.
    destruct (Z.le_gt_cases b (Z.of_nat (length l))) as [Hbl|Hbl].
    + rewrite Z.min_l by lia. reflexivity.
    + rewrite Z.min_r by lia.
      rewrite !firstn_all2; [reflexivity| |]; rewrite length_skipn; lia.
  - rewrite (Z.min_r a) by lia.
    rewrite !skipn_all2 by lia. rewrite !firstn_nil. reflexivity.
Qed.

Lemma skipn_combine (n : nat) (a : list A) (b : list B) :
  skipn n (combine a b) = combine (skipn n a) (skipn n b).
Proof.
  revert a b. induction n as [|n IH]; intros a b; [reflexivity|].
  destruct a as [|x a]; [reflexivity|].
  destruct b as [|y b]; simpl.
  - destruct (skipn n a); reflexivity.
  - apply IH.
Qed.

(** Slicing a list of pairs slices both components. *)
Lemma slice_zip (a : list A) (b : list B) (i j : Z) :
  length a = length b ->
  slice (zip a b) i j = zip (slice a i j) (slice b i j).
Proof.
  intros E. unfold slice. rewrite (len_zip a b E).
  replace (len b) with (len a) by (unfold len; rewrite E; reflexivity).
  unfold zip. rewrite skipn_combine, combine_firstn. reflexivity.
Qed.

Lemma length_slice_eq (a : list A) (b : list B) (i j : Z) :
  length a = length b -> length (slice a i j) = length (slice b i j).
Proof.
  intros E. unfold slice.
  replace (len b) with (len a) by (unfold len; rewrite E; reflexivity).
  rewrite !length_firstn, !length_skipn, E. reflexivity.
Qed.

Lemma map_fst_zip (a : list A) (b : list B) :
  length a = length b -> map fst (zip a b) = a.
Proof.
  revert b. induction a as [|x a IH]; intros [|y b] E; try discriminate.
  - reflexivity.
  - simpl. f_equal. apply IH. simpl in E. lia.
Qed.

Lemma map_snd_zip (a : list A) (b : list B) :
  length a = length b -> map snd (zip a b) = b.
Proof.
  revert b. induction a as [|x a IH]; intros [|y b] E; try discriminate.
  - reflexivity.
  - simpl. f_equal. apply IH. simpl in E. lia.
Qed.

End PyFacts.

(** ** The sliding loop of WindowDiff *)

Section Sliding.

Lemma slice_two (pre rest : list (Z * Z)) (x y : Z * Z) :
  slice (pre ++ x :: y :: rest) (len pre) (len pre + 2) = [x; y].
Proof.
  rewrite slice_nonneg by (pose proof (len_nonneg pre); lia).
  replace (Z.to_nat (len pre + 2 - len pre)) with 2%nat by lia.
  unfold len. rewrite Nat2Z.id.
  rewrite skipn_app, Nat.sub_diag, skipn_all. reflexivity.
Qed.

(** The inner loop, started anywhere in the window. *)
Lemma pair_loop (w pre : list (Z * Z)) (c1 c2 : Z) :
  for_each (map (fun i => len pre + Z.of_nat i) (seq 0 (length w - 1)))
           (pair_step (pre ++ w)) (c1, c2)
  = Return (c1 + boundaries (map fst w), c2 + boundaries (map snd w)).
Proof.
  revert pre c1 c2. induction w as [|x w IH]; intros pre c1 c2.
  - simpl. rewrite !Z.add_0_r. reflexivity.
  - destruct w as [|y w].
    + simpl. rewrite !Z.add_0_r. reflexivity.
    + replace (length (x :: y :: w) - 1)%nat with (S (length w)) by (simpl; lia).
      rewrite <- cons_seq, <- seq_shift, map_cons, map_map. simpl for_each.
      unfold pair_step at 1. rewrite Z.add_0_r, slice_two.
      destruct x as [r0 h0], y as [r1 h1]. cbn -[for_each boundaries Z.add].
      specialize (IH (pre ++ [(r0, h0)])).
      rewrite <- app_assoc in IH. simpl app in IH.
      replace (length ((r1, h1) :: w) - 1)%nat with (length w) in IH
        by (simpl; lia).
      erewrite map_ext; [rewrite IH|].
      * f_equal. f_equal; simpl; destruct (r0 =? r1), (h0 =? h1); simpl; lia.
      * intros i. rewrite len_app. unfold len. simpl. lia.
Qed.

Lemma count_boundaries_eq (w : list (Z * Z)) :
  count_boundaries w
  = Return (boundaries (map fst w), boundaries (map snd w)).
Proof.
  unfold count_boundaries.
  replace (xrange 0 (len w - 1))
    with (map (fun i => len (@nil (Z * Z)) + Z.of_nat i) (seq 0 (length w - 1))).
  - apply (pair_loop w [] 0 0).
  - unfold xrange, len. simpl.
    replace (Z.to_nat (Z.of_nat (length w) - 1 - 0)) with (length w - 1)%nat
      by lia.
    reflexivity.
Qed.

(** One step of the outer loop compares the boundaries of the two
    slices. *)
Lemma window_step_eq (ref hyp : list Z) (k i s : Z) :
  length ref = length hyp ->
  window_step (zip ref hyp) k i s
  = Return (if differ ref hyp k i then s + 1 else s).
Proof.
  intros E. unfold window_step. rewrite slice_zip by exact E.
  rewrite count_boundaries_eq.
  rewrite map_fst_zip, map_snd_zip by (apply length_slice_eq; exact E).
  reflexivity.
Qed.

(** The sliding loop never raises, and counts the slices that differ. *)
Lemma slide_eq (ref hyp : list Z) (k : Z) :
  length ref = length hyp ->
  slide (zip ref hyp) k = Return (mismatches ref hyp k).
Proof.
  intros E. unfold slide, mismatches. rewrite (len_zip ref hyp E).
  rewrite (for_each_count _ _ (differ ref hyp k)).
  - reflexivity.
  - intros i s _. apply window_step_eq. exact E.
Qed.

Lemma filter_map_length {X Y} (f : Y -> bool) (g : X -> Y) (l : list X) :
  length (List.filter f (map g l)) = length (List.filter (fun x => f (g x)) l).
Proof.
  induction l as [|x l IH]; [reflexivity|].
  simpl. destruct (f (g x)); simpl; rewrite IH; reflexivity.
Qed.


Lemma differ_sym (ref hyp : list Z) (k i : Z) :
  differ ref hyp k i = differ hyp ref k i.
Proof. unfold differ. rewrite Z.eqb_sym. reflexivity. Qed.

Lemma mismatches_sym (ref hyp : list Z) (k : Z) :
  length ref = length hyp -> mismatches ref hyp k = mismatches hyp ref k.
Proof.
  intros E. unfold mismatches.
  replace (len hyp) with (len ref) by (unfold len; rewrite E; reflexivity).
  f_equal. apply List.filter_ext. intros i. apply differ_sym.
Qed.

Lemma mismatches_same (xs : list Z) (k : Z) : mismatches xs xs k = 0.
Proof.
  unfold mismatches.
  rewrite (List.filter_ext _ (fun _ => false)).
  - induction (xrange 0 (len xs - k + 1)); [reflexivity | assumption].
  - intros i. unfold differ. rewrite Z.eqb_refl. reflexivity.
Qed.

End Sliding.

(** ** WindowDiff *)

Lemma Qeq_bool_of_int (z : Z) : Qeq_bool (Dec.of_int z) 0 = (z =? 0).
Proof.
  unfold Dec.of_int, Qeq_bool, inject_Z. simpl.
  rewrite Z.mul_1_r. reflexivity.
Qed.





(** The mismatches are no more than the windows examined. *)
Lemma mismatches_le_windows (ref hyp : list Z) (k : Z) :
  0 <= mismatches ref hyp k <= Z.max 0 (len ref - k + 1).
Proof.
  unfold mismatches. split; [apply len_nonneg|].
  unfold len at 1.
  pose proof (List.filter_length_le (differ ref hyp k)
                (xrange 0 (len ref - k + 1))) as H.
  unfold xrange in H at 2. rewrite length_map, length_seq in H. lia.
Qed.

Section WindowDiffFacts.

Variable rnd : Q -> Q.
Variable compute_window_size : list Z -> result Z.
Variable convert_masses_to_positions : list Z -> result (list Z).

Local Abbreviation window_diff :=
  (window_diff rnd compute_window_size convert_masses_to_positions).
Local Abbreviation window_diff_positions :=
  (window_diff_positions rnd compute_window_size).
Local Abbreviation positions := (positions convert_masses_to_positions).
Local Abbreviation window_size_used := (window_size_used compute_window_size).

Lemma units_padded (fix_ : bool) (k : Z) (ref hyp : list Z) :
  units fix_ (k - 1) ref hyp = zip (padded fix_ k ref) (padded fix_ k hyp).
Proof. destruct fix_; reflexivity. Qed.

Lemma length_padded (fix_ : bool) (k : Z) (ref hyp : list Z) :
  length ref = length hyp ->
  length (padded fix_ k ref) = length (padded fix_ k hyp).
Proof.
  intros E. destruct fix_; simpl; [|exact E].
  rewrite !length_app, E. reflexivity.
Qed.

Lemma window_diff_convert (h r h' r' : list Z) (ws : option Z)
    (om fix_ c : bool) :
  positions c r = Return r' -> positions c h = Return h' ->
  window_diff h r ws om fix_ c = window_diff_positions h' r' ws om fix_.
Proof.
  intros Hr Hh. unfold WindowDiff.window_diff. rewrite Hr. simpl.
  rewrite Hh. reflexivity.
Qed.

Lemma window_diff_positions_mismatch (h r : list Z) (ws : option Z)
    (om fix_ : bool) :
  length r <> length h ->
  window_diff_positions h r ws om fix_
  = Raise (SegmentationMetricError
             "Reference and hypothesis segmentations differ in length.").
Proof.
  intros N. unfold WindowDiff.window_diff_positions.
  destruct (Z.eqb_spec (len r) (len h)) as [E|_]; [|reflexivity].
  unfold len in E. lia.
Qed.

Lemma window_diff_positions_score (h r : list Z) (ws : option Z) (k : Z)
    (om fix_ : bool) :
  length r = length h -> window_size_used ws r = Return k ->
  window_diff_positions h r ws om fix_
  = score rnd (mismatches (padded fix_ k r) (padded fix_ k h) k)
          (normaliser fix_ r (k - 1)) k om.
Proof.
  intros E Hk. unfold WindowDiff.window_diff_positions.
  replace (len r =? len h) with true
    by (symmetry; apply Z.eqb_eq; unfold len; rewrite E; reflexivity).
  simpl. rewrite Hk. simpl.
  rewrite units_padded, slide_eq by (apply length_padded; exact E).
  reflexivity.
Qed.

(** C7. When the two segmentations, converted from masses if asked,
    do not have the same length, [window_diff] raises the error of
    segmentations that differ in length, whatever the window size, the
    flags and the helper that computes a window size: no window is
    looked at. *)
Theorem window_diff_length_mismatch (h r h' r' : list Z) (ws : option Z)
    (om fix_ c : bool) :
  positions c r = Return r' -> positions c h = Return h' ->
  length r' <> length h' ->
  window_diff h r ws om fix_ c
  = Raise (SegmentationMetricError
             "Reference and hypothesis segmentations differ in length.").
Proof.
  intros Hr Hh N. rewrite (window_diff_convert h r h' r') by assumption.
  apply window_diff_positions_mismatch. exact N.
Qed.

(** C9, amended. [window_diff(h, r)] equals [window_diff(r, h)] for the
    same flags when the window size is given, or when the size computed
    from either segmentation is the same. *)
Theorem window_diff_symmetric (h r h' r' : list Z) (ws : option Z)
    (om fix_ c : bool) :
  positions c r = Return r' -> positions c h = Return h' ->
  (ws = None -> compute_window_size r' = compute_window_size h') ->
  window_diff h r ws om fix_ c = window_diff r h ws om fix_ c.
Proof.
  intros Hr Hh Hws.
  rewrite (window_diff_convert h r h' r'), (window_diff_convert r h r' h')
    by assumption.
  destruct (Nat.eq_dec (length r') (length h')) as [E|N].
  - assert (Hk : window_size_used ws r' = window_size_used ws h')
      by (destruct ws; [reflexivity | apply Hws; reflexivity]).
    destruct (window_size_used ws r') as [k|e] eqn:Hu.
    + rewrite (window_diff_positions_score h' r' ws k) by assumption.
      rewrite (window_diff_positions_score r' h' ws k) by (symmetry; assumption).
      rewrite mismatches_sym by (apply length_padded; exact E).
      unfold normaliser, len. rewrite E. reflexivity.
    + unfold WindowDiff.window_diff_positions.
      rewrite (Z.eqb_sym (len h') (len r')), <- Hk, Hu. reflexivity.
  - rewrite !window_diff_positions_mismatch by congruence. reflexivity.
Qed.

(** C8, amended. [window_diff] does not check the window size it is
    given. For two segmentations of the same length it returns a score
    for every window size, also one that is not positive or that
    exceeds the sequences, unless the normaliser [n] equals the window
    size: then no window differs and the division [0 / 0] raises
    [InvalidOperation]. *)
Theorem window_diff_any_window_size (h r h' r' : list Z) (k : Z)
    (om fix_ c : bool) :
  positions c r = Return r' -> positions c h = Return h' ->
  length r' = length h' ->
  (normaliser fix_ r' (k - 1) <> k ->
   returns (window_diff h r (Some k) om fix_ c))
  /\ (normaliser fix_ r' (k - 1) = k ->
      window_diff h r (Some k) om fix_ c = Raise InvalidOperation).
Proof.
  intros Hr Hh E. rewrite (window_diff_convert h r h' r') by assumption.
  rewrite (window_diff_positions_score h' r' (Some k) k) by (exact E || reflexivity).
  unfold score, Dec.div. split; intros Hn.
  - rewrite (Qeq_bool_of_int (_ - k)).
    destruct (Z.eqb_spec (normaliser fix_ r' (k - 1) - k) 0) as [?|_]; [lia|].
    simpl. destruct om; simpl; eexists; reflexivity.
  - rewrite (Qeq_bool_of_int (_ - k)), Hn, Z.sub_diag. simpl.
    rewrite Qeq_bool_of_int.
    assert (Hm : mismatches (padded fix_ k r') (padded fix_ k h') k = 0).
    { destruct fix_; unfold normaliser in Hn.
      - assert (length r' = 0)%nat by (unfold len in Hn; lia).
        assert (length h' = 0)%nat by lia.
        destruct r', h'; try discriminate. apply mismatches_same.
      - simpl padded. unfold mismatches.
        rewrite xrange_empty by lia. reflexivity. }
    rewrite Hm. reflexivity.
Qed.


End WindowDiffFacts.

(** ** Fleiss' Pi *)

Section PiFacts.

Variable rnd : Q -> Q.

(** Rounding gives zero for zero only: the exponent of a Decimal has
    room for any result that is not zero. *)
Hypothesis rnd_zero : forall x : Q, rnd x == 0 <-> x == 0.

Variable other : Type.
Variable __actual_agreement_linear__ :
  dataset -> gmap string value ->
  result (list Z * list Z * other * list (string * list (Z * Z))).

Local Abbreviation fleiss_pi :=
  (__fleiss_pi_linear__ rnd other __actual_agreement_linear__).

Lemma div_defined (x y : Q) :
  ~ y == 0 -> Dec.div rnd x y = Return (rnd (x / y)).
Proof.
  intros N. unfold Dec.div.
  destruct (Qeq_bool y 0) eqn:E; [|reflexivity].
  apply Qeq_bool_iff in E. contradiction.
Qed.

Lemma div_by_zero (x y : Q) :
  y == 0 -> exists e, Dec.div rnd x y = Raise e /\ division_error e.
Proof.
  intros Z0. unfold Dec.div.
  apply Qeq_bool_iff in Z0. rewrite Z0.
  destruct (Qeq_bool x 0); eexists; (split; [reflexivity|]);
    [left | right]; reflexivity.
Qed.

Lemma of_int_zero (z : Z) : Dec.of_int z == 0 <-> z = 0.
Proof.
  rewrite <- Qeq_bool_iff, Qeq_bool_of_int. apply Z.eqb_eq.
Qed.

Lemma one_minus_zero (x : Q) : Dec.sub rnd 1 x == 0 <-> x == 1.
Proof.
  unfold Dec.sub. rewrite rnd_zero. split; intros H; lra.
Qed.

(** The loop over the items of one coder, when every item has boundary
    positions. *)
Lemma item_loop (info : list (Z * Z)) (acc : list Q) :
  Forall (fun o => snd o <> 0) info ->
  for_each info (item_step rnd) acc = Return (acc ++ map (chance rnd) info).
Proof.
  revert acc. induction info as [|[b t] info IH]; intros acc H.
  - simpl. rewrite app_nil_r. reflexivity.
  - inversion H as [|? ? Ht Hrest]; subst. simpl in Ht.
    simpl for_each. unfold item_step at 1.
    rewrite div_defined by (rewrite of_int_zero; exact Ht).
    simpl. rewrite IH by exact Hrest. rewrite <- app_assoc. reflexivity.
Qed.

Lemma item_loop_raises (info : list (Z * Z)) (acc : list Q) :
  Exists (fun o => snd o = 0) info ->
  exists e, for_each info (item_step rnd) acc = Raise e /\ division_error e.
Proof.
  revert acc. induction info as [|[b t] info IH]; intros acc H.
  - inversion H.
  - simpl for_each. unfold item_step at 1.
    destruct (Z.eq_dec t 0) as [Ht|Ht].
    + destruct (div_by_zero (Dec.of_int b) (Dec.of_int t)) as (e & -> & He).
      { apply of_int_zero. exact Ht. }
      exists e. split; [reflexivity | exact He].
    + rewrite div_defined by (rewrite of_int_zero; exact Ht). simpl.
      apply IH. inversion H as [? ? H0|? ? H0]; subst;
        [simpl in H0; contradiction | exact H0].
Qed.

(** The loop over the coders appends the chances of all observations,
    coder after coder. *)
Lemma coder_loop (infos : list (list (Z * Z))) (acc : list Q) :
  Forall (fun o => snd o <> 0) (concat infos) ->
  for_each infos (coder_step rnd) acc
  = Return (acc ++ map (chance rnd) (concat infos)).
Proof.
  revert acc. induction infos as [|info infos IH]; intros acc H.
  - simpl. rewrite app_nil_r. reflexivity.
  - simpl in H. apply Forall_app in H as [H1 H2].
    simpl for_each. unfold coder_step at 1. rewrite item_loop by exact H1.
    simpl. rewrite IH by exact H2.
    rewrite <- app_assoc, <- map_app. reflexivity.
Qed.

Lemma coder_loop_raises (infos : list (list (Z * Z))) (acc : list Q) :
  Exists (fun o => snd o = 0) (concat infos) ->
  exists e, for_each infos (coder_step rnd) acc = Raise e /\ division_error e.
Proof.
  revert acc. induction infos as [|info infos IH]; intros acc H.
  - inversion H.
  - simpl in H. simpl for_each. unfold coder_step at 1.
    destruct (decide (Exists (fun o : Z * Z => snd o = 0) info))
      as [Hinfo|Hinfo].
    + destruct (item_loop_raises info acc Hinfo) as (e & -> & He).
      exists e. split; [reflexivity | exact He].
    + rewrite item_loop.
      * simpl. apply IH. apply Exists_app in H as [H|H];
          [contradiction | exact H].
      * apply Forall_Exists_neg. exact Hinfo.
Qed.

Lemma finish_returns (rp : value) (nums dens : list Z)
    (cb : list (string * list (Z * Z))) :
  ~ degenerate rnd dens (observations cb) ->
  finish rnd rp nums dens cb
  = Return (let A_a := observed_agreement rnd nums dens in
            let A_e := expected_agreement rnd (observations cb) in
            if truthy rp then Parts A_a A_e
            else Score (coefficient rnd A_a A_e)).
Proof.
  intros N. unfold degenerate in N.
  assert (Hd : Py.sum dens <> 0) by tauto.
  assert (Ho : Forall (fun o : Z * Z => snd o <> 0) (observations cb))
    by (apply Forall_Exists_neg; tauto).
  assert (Hn : observations cb <> []) by tauto.
  assert (He : ~ expected_agreement rnd (observations cb) == 1) by tauto.
  unfold finish. rewrite div_defined by (rewrite of_int_zero; exact Hd).
  simpl. rewrite coder_loop by exact Ho. simpl.
  rewrite div_defined.
  - simpl. rewrite len_map.
    change (Dec.square rnd _) with (expected_agreement rnd (observations cb)).
    rewrite div_defined by (rewrite one_minus_zero; exact He).
    simpl. destruct (truthy rp); reflexivity.
  - rewrite of_int_zero, len_map. fold (observations cb).
    destruct (observations cb); [congruence | unfold len; simpl; lia].
Qed.

Lemma finish_raises (rp : value) (nums dens : list Z)
    (cb : list (string * list (Z * Z))) :
  degenerate rnd dens (observations cb) ->
  exists e, finish rnd rp nums dens cb = Raise e /\ division_error e.
Proof.
  unfold finish, degenerate, observations. intros D.
  destruct (Z.eq_dec (Py.sum dens) 0) as [Hd|Hd].
  { destruct (div_by_zero (Dec.of_int (Py.sum nums)) (Dec.of_int (Py.sum dens)))
      as (e & -> & He); [apply of_int_zero; exact Hd|].
    exists e. split; [reflexivity | exact He]. }
  rewrite div_defined by (rewrite of_int_zero; exact Hd). simpl.
  destruct (decide (Exists (fun o : Z * Z => snd o = 0) (concat (values cb))))
    as [Ho|Ho].
  { destruct (coder_loop_raises (values cb) [] Ho) as (e & -> & He).
    exists e. split; [reflexivity | exact He]. }
  rewrite coder_loop by (apply Forall_Exists_neg; exact Ho). simpl.
  rewrite len_map.
  destruct (concat (values cb)) as [|o obs] eqn:Eobs.
  { simpl. exists InvalidOperation. split; [reflexivity | left; reflexivity]. }
  rewrite div_defined by (rewrite of_int_zero; unfold len; simpl; lia).
  cbn [mbind result_bind bind].
  change (Dec.square rnd _) with (expected_agreement rnd (o :: obs)).
  destruct D as [D|[D|[D|D]]]; [contradiction | contradiction | discriminate |].
  destruct (div_by_zero
              (Dec.sub rnd (rnd (Dec.of_int (Py.sum nums)
                                 / Dec.of_int (Py.sum dens)))
                           (expected_agreement rnd (o :: obs)))
              (Dec.sub rnd 1 (expected_agreement rnd (o :: obs))))
    as (e & -> & He); [apply one_minus_zero; exact D|].
  exists e. split; [reflexivity | exact He].
Qed.

(** The check lets a dataset through when every coder has the same
    number of items and that number is an int that CPython shares. *)
Lemma equal_items_pass (ds : dataset) (n : Z) :
  equal_items ds n -> n <= 256 -> unequal_items ds n = false.
Proof.
  intros E Hn. unfold unequal_items.
  replace (List.filter _ (values ds)) with (@nil (list (string * list Z))).
  - reflexivity.
  - symmetry. unfold values at 2.
    induction E as [|[coder segs] ds' Hc _ IH]; [reflexivity|].
    simpl in *. rewrite <- IH.
    unfold is_not, small_int, values, len. rewrite length_map.
    unfold len in Hc. rewrite Hc, Z.eqb_refl.
    replace (-5 <=? n) with true by (symmetry; apply Z.leb_le; lia).
    replace (n <=? 256) with true by (symmetry; apply Z.leb_le; lia).
    reflexivity.
Qed.

(** The check stops a dataset in which a coder does not have the
    number of items it is compared with. *)
Lemma unequal_items_stop (ds : dataset) (n : Z) (c : string * list (string * list Z)) :
  In c ds -> len (snd c) <> n -> unequal_items ds n = true.
Proof.
  intros Hin Hne. unfold unequal_items. apply Z.ltb_lt.
  assert (Hf : In (snd c)
                 (List.filter (fun coder_segs =>
                                 is_not (len (values coder_segs)) n)
                              (values ds))).
  { apply filter_In. split; [apply in_map; exact Hin|].
    unfold is_not, values, len. rewrite length_map.
    destruct (Z.eqb_spec (Z.of_nat (length (snd c))) n) as [E|_];
      [contradiction | reflexivity]. }
  unfold len. destruct (List.filter _ _); [inversion Hf | simpl; lia].
Qed.

(** X7. The check stops every dataset whose first coder has more than
    256 items, also when all coders have as many: the lengths are
    compared as objects, and two ints above 256 are never the same
    object. *)
Lemma more_than_256_items_rejected (ds : dataset) (kwargs : gmap string value)
    (coder : string) (segs : list (string * list Z))
    (others : dataset) :
  is_Some (kwargs !! "return_parts"%string) ->
  ds = (coder, segs) :: others -> 256 < len segs ->
  fleiss_pi ds kwargs = Raise (Exception "Unequal number of items contained.").
Proof.
  intros [rp Hrp] -> Hn. unfold __fleiss_pi_linear__, getitem.
  rewrite Hrp. simpl.
  replace (unequal_items _ _) with true; [reflexivity|].
  symmetry. unfold unequal_items. simpl.
  replace (is_not _ _) with true;
    [apply Z.ltb_lt; unfold len; simpl length; lia|].
  symmetry. unfold is_not, small_int, values, keys, len in *.
  rewrite !length_map in *. rewrite Z.eqb_refl. simpl.
  replace (_ <=? 256) with false by (symmetry; apply Z.leb_gt; lia).
  rewrite andb_false_r. reflexivity.
Qed.

(** Up to the call of the agreement helper. *)
Lemma fleiss_pi_finish (ds : dataset) (kwargs : gmap string value)
    (rp : value) (n : Z) (nums dens : list Z) (x : other)
    (cb : list (string * list (Z * Z))) :
  kwargs !! "return_parts"%string = Some rp ->
  ds <> [] -> equal_items ds n -> n <= 256 ->
  __actual_agreement_linear__ ds (<["return_parts"%string := VBool true]> kwargs)
  = Return (nums, dens, x, cb) ->
  fleiss_pi ds kwargs = finish rnd rp nums dens cb.
Proof.
  intros Hrp Hne Heq Hn Hcall. unfold __fleiss_pi_linear__, getitem.
  rewrite Hrp. simpl.
  destruct ds as [|[coder segs] ds']; [congruence|]. simpl.
  assert (Hlen : len (keys segs) = n).
  { pose proof (Forall_inv Heq) as Hc. simpl in Hc.
    unfold keys, len. rewrite length_map. exact Hc. }
  rewrite Hlen, (equal_items_pass _ n Heq Hn), Hcall. reflexivity.
Qed.

(** C10. Without the key [return_parts] among its keyword arguments
    the metric raises [KeyError] for that key, whatever the dataset and
    the agreement helper: nothing is checked or computed before. *)
Theorem return_parts_is_mandatory (ds : dataset) (kwargs : gmap string value) :
  kwargs !! "return_parts"%string = None ->
  fleiss_pi ds kwargs = Raise (KeyError "return_parts").
Proof.
  intros H. unfold __fleiss_pi_linear__, getitem. rewrite H. reflexivity.
Qed.

(** C3. When two coders of the dataset do not have the same number of
    items, the metric raises the exception with the message "Unequal
    number of items contained.", whatever the agreement helper does:
    the check comes before the call of the helper and before any
    division. *)
Theorem unequal_items_rejected (ds : dataset) (kwargs : gmap string value)
    (a b : string * list (string * list Z)) :
  is_Some (kwargs !! "return_parts"%string) ->
  In a ds -> In b ds -> length (snd a) <> length (snd b) ->
  fleiss_pi ds kwargs = Raise (Exception "Unequal number of items contained.").
Proof.
  intros [rp Hrp] Ha Hb Hab. unfold __fleiss_pi_linear__, getitem.
  rewrite Hrp. simpl.
  destruct ds as [|[coder segs] ds'] eqn:Eds; [inversion Ha|]. simpl.
  rewrite <- Eds in *. clear Eds.
  set (n := len (keys segs)).
  assert (Hc : exists c, In c ds /\ len (snd c) <> n).
  { destruct (Z.eq_dec (len (snd a)) n) as [Ea|Na].
    - exists b. split; [exact Hb|]. unfold len in *. lia.
    - exists a. split; [exact Ha | exact Na]. }
  destruct Hc as (c & Hin & Hne).
  rewrite (unequal_items_stop ds n c Hin Hne). reflexivity.
Qed.

Lemma not_degenerate (dens : list Z) (obs : list (Z * Z)) :
  Py.sum dens <> 0 -> Forall (fun o => snd o <> 0) obs -> obs <> [] ->
  ~ expected_agreement rnd obs == 1 ->
  ~ degenerate rnd dens obs.
Proof.
  intros Hd Ho Hn He [D|[D|[D|D]]]; try contradiction.
  apply Forall_Exists_neg in Ho. contradiction.
Qed.

(** X14. For a dataset that passes the check on the number of items
    (every coder has the same number of items, 256 at most), and parts
    of the agreement helper for which no division has a zero divisor,
    the metric asked for the coefficient returns
    [(A_a - A_e) / (1 - A_e)], where [A_e] is the square of [P_e_seg]
    and [P_e_seg] is the sum, over every (coder, item) observation, of
    boundaries / total boundaries, divided by the number of
    observations. *)
Theorem fleiss_pi_formula (ds : dataset) (kwargs : gmap string value)
    (rp : value) (n : Z) (nums dens : list Z) (x : other)
    (cb : list (string * list (Z * Z))) :
  kwargs !! "return_parts"%string = Some rp -> truthy rp = false ->
  ds <> [] -> equal_items ds n -> n <= 256 ->
  __actual_agreement_linear__ ds (<["return_parts"%string := VBool true]> kwargs)
  = Return (nums, dens, x, cb) ->
  let obs := observations cb in
  let P_e_seg :=
    rnd (Dec.sum rnd (map (fun o => rnd (inject_Z (fst o) / inject_Z (snd o)))
                          obs)
         / inject_Z (len obs)) in
  let A_e := rnd (P_e_seg * P_e_seg) in
  let A_a := rnd (inject_Z (Py.sum nums) / inject_Z (Py.sum dens)) in
  Py.sum dens <> 0 -> Forall (fun o => snd o <> 0) obs -> obs <> [] ->
  ~ A_e == 1 ->
  fleiss_pi ds kwargs = Return (Score (rnd (rnd (A_a - A_e) / rnd (1 - A_e)))).
Proof.
  intros Hrp Hfalse Hne Heq Hn Hcall obs P_e_seg A_e A_a Hd Ho Hobs He.
  rewrite (fleiss_pi_finish ds kwargs rp n nums dens x cb) by assumption.
  rewrite finish_returns by (apply not_degenerate; assumption).
  simpl. rewrite Hfalse. reflexivity.
Qed.

(** C4. Under the same conditions the observed agreement that the
    metric uses, and returns when asked for the parts, is the sum of
    the numerators divided by the sum of the denominators, in one
    division; it is not the mean of the ratios of the pairs: for the
    numerators 1, 1 over the denominators 1, 3 the former is 1/2 and
    the latter 2/3. *)
Theorem observed_agreement_pooled (ds : dataset) (kwargs : gmap string value)
    (rp : value) (n : Z) (nums dens : list Z) (x : other)
    (cb : list (string * list (Z * Z))) :
  kwargs !! "return_parts"%string = Some rp ->
  ds <> [] -> equal_items ds n -> n <= 256 ->
  __actual_agreement_linear__ ds (<["return_parts"%string := VBool true]> kwargs)
  = Return (nums, dens, x, cb) ->
  ~ degenerate rnd dens (observations cb) ->
  let A_a := rnd (inject_Z (Py.sum nums) / inject_Z (Py.sum dens)) in
  let A_e := expected_agreement rnd (observations cb) in
  fleiss_pi ds kwargs
  = Return (if truthy rp then Parts A_a A_e
            else Score (coefficient rnd A_a A_e))
  /\ observed_agreement default_rounding [1; 1] [1; 3] == 1 # 2
  /\ ~ mean_of_ratios default_rounding [1; 1] [1; 3] == 1 # 2.
Proof.
  intros Hrp Hne Heq Hn Hcall Hdeg A_a A_e. split; [|split].
  - rewrite (fleiss_pi_finish ds kwargs rp n nums dens x cb) by assumption.
    rewrite finish_returns by assumption. reflexivity.
  - vm_compute. reflexivity.
  - vm_compute. discriminate.
Qed.

(** C6, amended. Once the dataset has passed the check and the
    agreement helper has returned its parts, the metric raises one of
    the two exceptions of a division by zero when the sum of the
    denominators is 0, or an observation has no boundary position, or
    there is no observation, or [A_e] equals 1; in every other case it
    returns a value. In particular, when the divisions before the last
    are defined, it fails if and only if [A_e] equals 1. *)
Theorem fleiss_pi_failures (ds : dataset) (kwargs : gmap string value)
    (rp : value) (n : Z) (nums dens : list Z) (x : other)
    (cb : list (string * list (Z * Z))) :
  kwargs !! "return_parts"%string = Some rp ->
  ds <> [] -> equal_items ds n -> n <= 256 ->
  __actual_agreement_linear__ ds (<["return_parts"%string := VBool true]> kwargs)
  = Return (nums, dens, x, cb) ->
  let obs := observations cb in
  let A_e := expected_agreement rnd obs in
  let degenerate :=
    Py.sum dens = 0 \/ Exists (fun o => snd o = 0) obs \/ obs = []
    \/ A_e == 1 in
  (degenerate ->
   exists e, fleiss_pi ds kwargs = Raise e /\ division_error e)
  /\ (~ degenerate -> returns (fleiss_pi ds kwargs)).
Proof.
  intros Hrp Hne Heq Hn Hcall obs A_e deg.
  rewrite (fleiss_pi_finish ds kwargs rp n nums dens x cb) by assumption.
  split; intros H.
  - apply finish_raises. exact H.
  - rewrite finish_returns by exact H. eexists. reflexivity.
Qed.

End PiFacts.

(** ** The default decimal context *)

Section Rounding.

Local Open Scope Q_scope.

Lemma pow10_pos (e : Z) : 0 < Dec.pow10 e.
Proof.
  unfold Dec.pow10. destruct (e <? 0)%Z eqn:E.
  - reflexivity.
  - apply Z.ltb_ge in E.
    assert (0 < 10 ^ e)%Z by (apply Z.pow_pos_nonneg; lia).
    unfold Qlt, inject_Z. simpl. lia.
Qed.

Lemma exponent_from_le (fuel : nat) (e0 : Z) (x : Q) :
  Dec.pow10 (e0 - Z.of_nat fuel) <= x ->
  Dec.pow10 (Dec.exponent_from fuel e0 x) <= x.
Proof.
  revert e0. induction fuel as [|fuel IH]; intros e0 H.
  - simpl. rewrite Z.sub_0_r in H. exact H.
  - simpl. destruct (Qle_bool (Dec.pow10 e0) x) eqn:T.
    + apply Qle_bool_iff. exact T.
    + apply IH. replace (e0 - 1 - Z.of_nat fuel)%Z
        with (e0 - Z.of_nat (S fuel))%Z by lia.
      exact H.
Qed.

Lemma pow10_lower (x : Q) :
  0 < x -> Dec.pow10 (- (Z.log2 (Zpos (Qden x)) + 1)) <= x.
Proof.
  destruct x as [a b]. unfold Qlt. cbn [Qnum Qden]. intros Ha.
  pose proof (Z.log2_nonneg (Zpos b)) as Hl.
  assert (Hb : (Zpos b < 2 ^ Z.succ (Z.log2 (Zpos b)))%Z)
    by (apply Z.log2_spec; lia).
  assert (H2 : (2 ^ Z.succ (Z.log2 (Zpos b))
                <= 10 ^ Z.succ (Z.log2 (Zpos b)))%Z)
    by (apply Z.pow_le_mono_l; lia).
  unfold Dec.pow10. set (l := Z.log2 (Zpos b)) in *.
  replace (- (l + 1) <? 0)%Z with true by (symmetry; apply Z.ltb_lt; lia).
  rewrite Z.opp_involutive. replace (l + 1)%Z with (Z.succ l) by lia.
  unfold Qle. cbn [Qnum Qden]. rewrite Z2Pos.id by lia. nia.
Qed.

Lemma exponent_le (x : Q) : 0 < x -> Dec.pow10 (Dec.exponent x) <= x.
Proof.
  intros Hx. unfold Dec.exponent. apply exponent_from_le.
  pose proof (Z.log2_nonneg (Qnum x)).
  pose proof (Z.log2_nonneg (Zpos (Qden x))).
  rewrite Z2Nat.id by lia.
  replace (Z.log2 (Qnum x) + 1
           - (Z.log2 (Qnum x) + 1 - - (Z.log2 (Z.pos (Qden x)) + 1)))%Z
    with (- (Z.log2 (Z.pos (Qden x)) + 1))%Z by lia.
  apply pow10_lower. exact Hx.
Qed.

Lemma round_half_even_ge (y : Q) : (Qfloor y <= Dec.round_half_even y)%Z.
Proof.
  unfold Dec.round_half_even.
  destruct (y - inject_Z (Qfloor y) ?= 1 # 2);
    [destruct (Z.even (Qfloor y))| |]; lia.
Qed.

Lemma round_positive_pos (prec : Z) (x : Q) :
  (1 <= prec)%Z -> 0 < x -> 0 < Dec.round_positive prec x.
Proof.
  intros Hp Hx. unfold Dec.round_positive.
  pose proof (pow10_pos (Dec.exponent x)) as He.
  pose proof (exponent_le x Hx) as Hle.
  assert (Hu : 1 <= inject_Z (10 ^ (prec - 1))).
  { assert (0 < 10 ^ (prec - 1))%Z by (apply Z.pow_pos_nonneg; lia).
    unfold Qle, inject_Z. simpl. lia. }
  set (u := inject_Z (10 ^ (prec - 1))) in *.
  set (p := Dec.pow10 (Dec.exponent x)) in *.
  assert (Hs : 1 <= x / p).
  { apply Qle_shift_div_l; [exact He|]. rewrite Qmult_1_l. exact Hle. }
  assert (Hy : 1 <= x / p * u).
  { apply Qle_trans with (1 * u); [lra|].
    apply Qmult_le_compat_r; [exact Hs | lra]. }
  assert (Hm : (1 <= Dec.round_half_even (x / p * u))%Z).
  { pose proof (round_half_even_ge (x / p * u)).
    pose proof (Qfloor_resp_le _ _ Hy) as Hf.
    change (Qfloor 1) with 1%Z in Hf. lia. }
  assert (Hm' : 0 < inject_Z (Dec.round_half_even (x / p * u))).
  { unfold Qlt, inject_Z. simpl. lia. }
  apply Qlt_shift_div_l; [lra|]. rewrite Qmult_0_l.
  apply Qmult_lt_0_compat; assumption.
Qed.

(** A context of at least one digit rounds to zero nothing but zero. *)
Lemma round_prec_zero (prec : Z) (x : Q) :
  (1 <= prec)%Z -> Dec.round_prec prec x == 0 <-> x == 0.
Proof.
  intros Hp. unfold Dec.round_prec.
  destruct (x ?= 0) eqn:C.
  - apply Qeq_alt in C. split; [intros _; exact C | reflexivity].
  - apply Qlt_alt in C. rewrite Qred_correct.
    assert (0 < Dec.round_positive prec (- x))
      by (apply round_positive_pos; [exact Hp | lra]).
    split; intros H0; lra.
  - apply Qgt_alt in C. rewrite Qred_correct.
    assert (0 < Dec.round_positive prec x)
      by (apply round_positive_pos; [exact Hp | lra]).
    split; intros H0; lra.
Qed.

Lemma default_rounding_zero (x : Q) : default_rounding x == 0 <-> x == 0.
Proof. apply round_prec_zero. lia. Qed.

End Rounding.

(** ** Runs on sample inputs *)

Section Runs.

Local Abbreviation wd :=
  (window_diff default_rounding window_size_of masses_to_positions).
Local Abbreviation pi_ :=
  (__fleiss_pi_linear__ default_rounding unit actual_agreement).

(** Without the fix the mismatches are at most the divisor, which is
    the number of windows. *)
Lemma mismatches_within_normaliser (r h : list Z) (k : Z) :
  k <= len r + 1 ->
  0 <= mismatches r h k <= normaliser false r (k - 1) - k.
Proof.
  intros Hk. pose proof (mismatches_le_windows r h k). unfold normaliser. lia.
Qed.

(** With the fix the loop looks at [k - 1] more windows than the
    division counts: the padded sequences have
    [len + 2 * (k - 1) - k + 1] windows, and [n - k] is [len]. *)
Lemma fix_windows_exceed_normaliser (r : list Z) (k : Z) :
  1 <= k ->
  len (padded true k r) - k + 1 = (normaliser true r (k - 1) - k) + (k - 1).
Proof.
  intros Hk. unfold normaliser, padded, len.
  rewrite !length_app, repeat_length. lia.
Qed.

(** C5. With the fix, eight units in eight segments against eight
    units in one segment, for the window size 4 (which is also the size
    computed from the reference), score 9/8: all of the 9 windows that
    hold a boundary position of the units differ, and the division is
    by 8. The same score comes out of the two segmentations given as
    masses with the settings of [pairwise_window_diff]. *)
Theorem window_diff_above_one :
  wd eight_segments one_segment (Some 4) false true false = Return (9 # 8)
  /\ wd eight_segments one_segment None false true false = Return (9 # 8)
  /\ wd one_segment [8] None false true true = Return (9 # 8)
  /\ (1 < 9 # 8)%Q.
Proof. repeat split; vm_compute; reflexivity. Qed.

(** C1. Two coders with the same 257 items are a valid dataset: every
    coder has 257 items, the agreement helper returns its parts for it,
    no division has a zero divisor and the coefficient of the formula
    is 1. The metric does not return it: the check on the number of
    items compares two lengths of 257 with [is not] and raises. *)
Theorem fleiss_pi_rejects_equal_items :
  equal_items many_items_of_three 257
  /\ actual_agreement many_items_of_three
       (<["return_parts"%string := VBool true]> want_score)
     = Return (repeat 2 257, repeat 2 257, tt,
               [("a"%string, repeat (1, 2) 257);
                ("b"%string, repeat (1, 2) 257)])
  /\ Py.sum (repeat 2 257) <> 0
  /\ Forall (fun o => snd o <> 0) (repeat (1, 2) 514)
  /\ ~ expected_agreement default_rounding (repeat (1, 2) 514) == 1
  /\ coefficient default_rounding
       (observed_agreement default_rounding (repeat 2 257) (repeat 2 257))
       (expected_agreement default_rounding (repeat (1, 2) 514))
     == 1
  /\ pi_ many_items_of_three want_score
     = Raise (Exception "Unequal number of items contained.").
Proof.
  split; [|split; [|split; [|split; [|split; [|split]]]]].
  - unfold equal_items. repeat constructor.
  - vm_compute. reflexivity.
  - vm_compute. discriminate.
  - apply Forall_forall. intros o Ho.
    apply list_elem_of_In, repeat_spec in Ho. subst o. discriminate.
  - vm_compute. discriminate.
  - vm_compute. reflexivity.
  - vm_compute. reflexivity.
Qed.


(** The boundary of a sentinel shows in the score when a label is 0:
    two segmentations without a boundary score 1. *)
Example sentinel_against_label_zero :
  wd [1; 1] [0; 0] (Some 2) false true false = Return 1%Q.
Proof. vm_compute. reflexivity. Qed.

(** C8, as stated, fails: the window sizes 0 and 10, for sequences of 3
    units, give the score 0. *)
Lemma window_size_unchecked :
  wd [1; 1; 2] [1; 2; 2] (Some 0) false false false = Return 0%Q
  /\ wd [1; 1; 2] [1; 2; 2] (Some 10) false false false = Return 0%Q.
Proof. split; vm_compute; reflexivity. Qed.

(** A negative window size makes the slices count from the end, and the
    score is not even 0. *)
Example window_size_negative :
  wd [1; 1; 2] [1; 2; 2] (Some (-1)) false false false = Return (1 # 5).
Proof. vm_compute. reflexivity. Qed.

(** C9, as stated, fails: without a window size, eight units in one
    segment against eight units with a boundary before the last score
    1/7 (rounded) one way, with the window size 2, and 1/5 the other
    way, with the window size 4. *)
Lemma window_diff_asymmetric :
  wd one_segment late_boundary None false false false
  = Return (default_rounding (1 # 7))
  /\ wd late_boundary one_segment None false false false = Return (1 # 5)
  /\ wd one_segment late_boundary None false false false
     <> wd late_boundary one_segment None false false false.
Proof.
  split; [|split]; vm_compute; [reflexivity | reflexivity | discriminate].
Qed.

(** C6, as stated, fails: for one coder alone there is no pair to
    compare, the sum of the denominators is 0 and the first division
    raises [InvalidOperation], while [A_e] is not 1. *)
Lemma fleiss_pi_fails_without_pairs :
  actual_agreement one_coder (<["return_parts"%string := VBool true]> want_score)
  = Return ([], [], tt, [("a"%string, [(1, 9); (1, 9)])])
  /\ ~ expected_agreement default_rounding [(1, 9); (1, 9)] == 1
  /\ pi_ one_coder want_score = Raise InvalidOperation.
Proof.
  split; [|split]; vm_compute; [reflexivity | discriminate | reflexivity].
Qed.

(** The theorems above, at sample inputs. *)

Lemma window_diff_length_mismatch_witness :
  wd [1; 1] [1; 2; 2] None false false false
  = Raise (SegmentationMetricError
             "Reference and hypothesis segmentations differ in length.").
Proof.
  apply (window_diff_length_mismatch default_rounding window_size_of
           masses_to_positions [1; 1] [1; 2; 2] [1; 1] [1; 2; 2]
           None false false false);
    [reflexivity | reflexivity | discriminate].
Defined.

Lemma window_diff_symmetric_witness :
  wd [1; 1; 2] [1; 2; 2] (Some 2) false true false
  = wd [1; 2; 2] [1; 1; 2] (Some 2) false true false.
Proof.
  apply (window_diff_symmetric default_rounding window_size_of
           masses_to_positions [1; 1; 2] [1; 2; 2] [1; 1; 2] [1; 2; 2]
           (Some 2) false true false);
    [reflexivity | reflexivity | discriminate].
Defined.

Lemma window_diff_any_window_size_witness :
  returns (wd [1; 1; 2] [1; 2; 2] (Some 0) false false false).
Proof.
  apply (window_diff_any_window_size default_rounding window_size_of
           masses_to_positions [1; 1; 2] [1; 2; 2] [1; 1; 2] [1; 2; 2]
           0 false false false);
    [reflexivity | reflexivity | reflexivity | vm_compute; discriminate].
Defined.


Lemma return_parts_is_mandatory_witness :
  pi_ two_coders ∅ = Raise (KeyError "return_parts").
Proof.
  apply (return_parts_is_mandatory default_rounding unit actual_agreement
           two_coders ∅).
  reflexivity.
Defined.

Lemma unequal_items_rejected_witness :
  pi_ ragged want_score = Raise (Exception "Unequal number of items contained.").
Proof.
  apply (unequal_items_rejected default_rounding unit actual_agreement
           ragged want_score
           ("a"%string, [("i1"%string, [3; 7]); ("i2"%string, [5; 5])])
           ("b"%string, [("i1"%string, [4; 6])]));
    [eexists; reflexivity | left; reflexivity | right; left; reflexivity
    | discriminate].
Defined.

Lemma fleiss_pi_formula_witness :
  pi_ two_coders want_score = Return (Score 0.8300550747442958300550747443%Q).
Proof.
  rewrite (fleiss_pi_formula default_rounding default_rounding_zero unit
             actual_agreement two_coders want_score (VBool false) 2
             [7; 8] [9; 9] tt
             [("a"%string, [(1, 9); (1, 9)]); ("b"%string, [(1, 9); (2, 9)])]);
    [ vm_compute; reflexivity
    | reflexivity | reflexivity | discriminate
    | repeat constructor | lia
    | vm_compute; reflexivity
    | vm_compute; discriminate
    | repeat constructor; discriminate
    | discriminate
    | vm_compute; discriminate ].
Defined.

Lemma observed_agreement_pooled_witness :
  pi_ two_coders want_parts
  = Return (Parts (default_rounding (15 # 18))
                  (expected_agreement default_rounding
                     [(1, 9); (1, 9); (1, 9); (2, 9)])).
Proof.
  destruct (observed_agreement_pooled default_rounding default_rounding_zero
              unit actual_agreement two_coders want_parts (VBool true) 2
              [7; 8] [9; 9] tt
              [("a"%string, [(1, 9); (1, 9)]); ("b"%string, [(1, 9); (2, 9)])])
    as [W _];
    [ reflexivity | discriminate | repeat constructor | lia
    | vm_compute; reflexivity
    | apply not_degenerate;
        [ vm_compute; discriminate | repeat constructor; discriminate
        | discriminate | vm_compute; discriminate ]
    | ].
  rewrite W. vm_compute. reflexivity.
Defined.

Lemma fleiss_pi_failures_witness :
  exists e, pi_ all_boundaries want_score = Raise e /\ division_error e.
Proof.
  apply (fleiss_pi_failures default_rounding default_rounding_zero unit
           actual_agreement all_boundaries want_score (VBool false) 1
           [1] [1] tt [("a"%string, [(1, 1)]); ("b"%string, [(1, 1)])]);
    [ reflexivity | discriminate | repeat constructor | lia
    | vm_compute; reflexivity
    | right; right; right; vm_compute; reflexivity ].
Defined.

End Runs.

(** ** More on the default decimal context *)

Section RoundingLaws.

Local Open Scope Q_scope.

Lemma pow10_succ (e : Z) : Dec.pow10 (e + 1) == 10 * Dec.pow10 e.
Proof.
  unfold Dec.pow10.
  destruct (Z.ltb_spec e 0) as [He|He]; destruct (Z.ltb_spec (e + 1) 0) as [He1|He1];
    try lia.
  - assert (Hp : (0 < 10 ^ (- (e + 1)))%Z) by (apply Z.pow_pos_nonneg; lia).
    replace (- e)%Z with (Z.succ (- (e + 1))) by lia.
    rewrite Z.pow_succ_r by lia.
    unfold Qeq, Qmult. cbn [Qnum Qden].
    rewrite !Z2Pos.id by lia. rewrite Pos2Z.inj_mul, !Z2Pos.id by lia. lia.
  - replace e with (-1)%Z by lia. reflexivity.
  - replace (e + 1)%Z with (Z.succ e) by lia.
    rewrite Z.pow_succ_r by lia. rewrite inject_Z_mult. reflexivity.
Qed.

Lemma pow10_step (e : Z) : Dec.pow10 e < Dec.pow10 (e + 1).
Proof. rewrite pow10_succ. pose proof (pow10_pos e). lra. Qed.

Lemma pow10_mono_nat (e : Z) (n : nat) :
  Dec.pow10 e <= Dec.pow10 (e + Z.of_nat n).
Proof.
  induction n as [|n IH].
  - rewrite Z.add_0_r. apply Qle_refl.
  - replace (e + Z.of_nat (S n))%Z with (e + Z.of_nat n + 1)%Z by lia.
    pose proof (pow10_step (e + Z.of_nat n)). lra.
Qed.

Lemma pow10_mono (e e' : Z) : (e <= e')%Z -> Dec.pow10 e <= Dec.pow10 e'.
Proof.
  intros H. replace e' with (e + Z.of_nat (Z.to_nat (e' - e)))%Z by lia.
  apply pow10_mono_nat.
Qed.

(** The leading digit has one exponent only. *)
Lemma exponent_unique (x : Q) (e e' : Z) :
  Dec.pow10 e <= x -> x < Dec.pow10 (e + 1) ->
  Dec.pow10 e' <= x -> x < Dec.pow10 (e' + 1) -> e = e'.
Proof.
  intros H1 H2 H3 H4.
  destruct (Z.lt_trichotomy e e') as [L|[E|L]]; [|exact E|].
  - pose proof (pow10_mono (e + 1) e' ltac:(lia)). lra.
  - pose proof (pow10_mono (e' + 1) e ltac:(lia)). lra.
Qed.

Lemma exponent_from_gt (fuel : nat) (e0 : Z) (x : Q) :
  x < Dec.pow10 (e0 + 1) ->
  x < Dec.pow10 (Dec.exponent_from fuel e0 x + 1).
Proof.
  revert e0. induction fuel as [|fuel IH]; intros e0 H; [exact H|].
  simpl. destruct (Qle_bool (Dec.pow10 e0) x) eqn:T; [exact H|].
  apply IH. replace (e0 - 1 + 1)%Z with e0 by lia.
  apply Qnot_le_lt. intros L. apply Qle_bool_iff in L. congruence.
Qed.

Lemma pow10_upper (x : Q) :
  0 < x -> x < Dec.pow10 (Z.log2 (Qnum x) + 1 + 1).
Proof.
  destruct x as [a b]. unfold Qlt. cbn [Qnum Qden]. intros Ha.
  assert (Hpos : (0 < a)%Z) by lia.
  pose proof (Z.log2_nonneg a) as Hl.
  assert (Hb : (a < 2 ^ Z.succ (Z.log2 a))%Z) by (apply Z.log2_spec; lia).
  assert (H2 : (2 ^ Z.succ (Z.log2 a) <= 10 ^ Z.succ (Z.log2 a))%Z)
    by (apply Z.pow_le_mono_l; lia).
  assert (H3 : (10 ^ Z.succ (Z.log2 a) <= 10 ^ (Z.log2 a + 1 + 1))%Z)
    by (apply Z.pow_le_mono_r; lia).
  unfold Dec.pow10. set (l := Z.log2 a) in *.
  replace (l + 1 + 1 <? 0)%Z with false by (symmetry; apply Z.ltb_ge; lia).
  unfold inject_Z. cbn [Qnum Qden]. nia.
Qed.

Lemma exponent_gt (x : Q) : 0 < x -> x < Dec.pow10 (Dec.exponent x + 1).
Proof.
  intros Hx. unfold Dec.exponent. apply exponent_from_gt.
  apply pow10_upper. exact Hx.
Qed.

Lemma exponent_proper (x y : Q) :
  0 < x -> x == y -> Dec.exponent x = Dec.exponent y.
Proof.
  intros Hx E. assert (Hy : 0 < y) by (rewrite <- E; exact Hx).
  pose proof (exponent_le x Hx). pose proof (exponent_gt x Hx).
  pose proof (exponent_le y Hy). pose proof (exponent_gt y Hy).
  apply (exponent_unique x); try assumption; rewrite E; assumption.
Qed.

Lemma round_half_even_proper (x y : Q) :
  x == y -> Dec.round_half_even x = Dec.round_half_even y.
Proof.
  intros E. unfold Dec.round_half_even.
  rewrite (Qfloor_comp x y E).
  assert (E' : x - inject_Z (Qfloor y) == y - inject_Z (Qfloor y))
    by (rewrite E; reflexivity).
  rewrite (Qcompare_comp _ _ E' (1 # 2) (1 # 2) (Qeq_refl _)). reflexivity.
Qed.

Lemma round_positive_proper (prec : Z) (x y : Q) :
  0 < x -> x == y ->
  Dec.round_positive prec x == Dec.round_positive prec y.
Proof.
  intros Hx E. unfold Dec.round_positive.
  rewrite <- (exponent_proper x y Hx E).
  set (p := Dec.pow10 (Dec.exponent x)).
  set (u := inject_Z (10 ^ (prec - 1))).
  assert (Ey : x / p * u == y / p * u) by (rewrite E; reflexivity).
  rewrite (round_half_even_proper _ _ Ey). reflexivity.
Qed.

(** Equal rationals round to the same fraction. *)
Lemma round_prec_proper (prec : Z) (x y : Q) :
  x == y -> Dec.round_prec prec x = Dec.round_prec prec y.
Proof.
  intros E. unfold Dec.round_prec.
  rewrite <- (Qcompare_comp x y E 0 0 (Qeq_refl 0)).
  destruct (x ?= 0) eqn:C.
  - reflexivity.
  - apply Qlt_alt in C. apply Qred_complete.
    rewrite (round_positive_proper prec (- x) (- y)); [reflexivity | lra |].
    rewrite E. reflexivity.
  - apply Qgt_alt in C. apply Qred_complete.
    apply round_positive_proper; [lra | exact E].
Qed.

Lemma round_half_even_le (y : Q) (N : Z) :
  y < inject_Z N -> (Dec.round_half_even y <= N)%Z.
Proof.
  intros H.
  assert (Hf : (Qfloor y < N)%Z).
  { pose proof (Qfloor_le y) as Hl.
    destruct (Z.lt_ge_cases (Qfloor y) N) as [L|G]; [exact L|].
    rewrite Zle_Qle in G. lra. }
  unfold Dec.round_half_even.
  destruct (y - inject_Z (Qfloor y) ?= 1 # 2);
    [destruct (Z.even (Qfloor y))| |]; lia.
Qed.

(** A positive rational below 1 rounds to at most 1. *)
Lemma round_positive_below_one (prec : Z) (x : Q) :
  (1 <= prec)%Z -> 0 < x -> x < 1 -> Dec.round_positive prec x <= 1.
Proof.
  intros Hp Hx H1. unfold Dec.round_positive.
  pose proof (pow10_pos (Dec.exponent x)) as He.
  pose proof (exponent_le x Hx) as Hle.
  pose proof (exponent_gt x Hx) as Hgt.
  assert (Hneg : (Dec.exponent x + 1 <= 0)%Z).
  { destruct (Z.le_gt_cases (Dec.exponent x + 1) 0) as [L|G]; [exact L|].
    pose proof (pow10_mono 0 (Dec.exponent x) ltac:(lia)) as M.
    change (Dec.pow10 0) with 1 in M. lra. }
  pose proof (pow10_mono (Dec.exponent x + 1) 0 Hneg) as Hup.
  change (Dec.pow10 0) with 1 in Hup.
  rewrite pow10_succ in Hgt, Hup.
  assert (Hu : 0 < inject_Z (10 ^ (prec - 1))).
  { assert (0 < 10 ^ (prec - 1))%Z by (apply Z.pow_pos_nonneg; lia).
    unfold Qlt, inject_Z. simpl. lia. }
  set (u := inject_Z (10 ^ (prec - 1))) in *.
  set (p := Dec.pow10 (Dec.exponent x)) in *.
  assert (Hc : x / p < 10).
  { apply Qlt_shift_div_r; [exact He | lra]. }
  assert (Hy : x / p * u < inject_Z (10 * 10 ^ (prec - 1))).
  { rewrite inject_Z_mult. fold u. change (inject_Z 10) with 10.
    apply Qmult_lt_compat_r; assumption. }
  pose proof (round_half_even_le _ _ Hy) as Hm.
  rewrite Zle_Qle, inject_Z_mult in Hm. fold u in Hm.
  change (inject_Z 10) with 10 in Hm.
  set (m := inject_Z (Dec.round_half_even (x / p * u))) in *.
  apply Qle_shift_div_r; [exact Hu|]. rewrite Qmult_1_l.
  apply Qle_trans with (10 * u * p).
  - apply Qmult_le_compat_r; lra.
  - nra.
Qed.

(** The default context keeps a rational of the unit interval in it. *)
Lemma default_rounding_unit (x : Q) :
  0 <= x <= 1 -> 0 <= default_rounding x <= 1.
Proof.
  intros [H0 H1]. unfold default_rounding.
  destruct (Qeq_dec x 0) as [Z0|N0].
  { rewrite (round_prec_proper 28 x 0 Z0). vm_compute. split; discriminate. }
  destruct (Qeq_dec x 1) as [Z1|N1].
  { rewrite (round_prec_proper 28 x 1 Z1). vm_compute. split; discriminate. }
  assert (Hx : 0 < x) by (apply Qnot_le_lt; intros L; apply N0; lra).
  assert (Hx1 : x < 1) by (apply Qnot_le_lt; intros L; apply N1; lra).
  unfold Dec.round_prec.
  destruct (x ?= 0) eqn:C.
  - apply Qeq_alt in C. contradiction.
  - apply Qlt_alt in C. lra.
  - rewrite Qred_correct. split.
    + apply Qlt_le_weak. apply round_positive_pos; [lia | exact Hx].
    + apply round_positive_below_one; [lia | exact Hx | exact Hx1].
Qed.

Lemma default_rounding_proper (x y : Q) :
  x == y -> default_rounding x == default_rounding y.
Proof.
  intros E. unfold default_rounding.
  rewrite (round_prec_proper 28 x y E). reflexivity.
Qed.

Lemma default_rounding_one : default_rounding 1 == 1.
Proof. vm_compute. reflexivity. Qed.

End RoundingLaws.

(** ** More on WindowDiff *)

Section SliceFacts.

Lemma xrange_nonneg (b i : Z) : In i (xrange 0 b) -> 0 <= i.
Proof.
  unfold xrange. rewrite in_map_iff. intros (j & <- & _). lia.
Qed.

Lemma filter_none {X} (f : X -> bool) (l : list X) :
  (forall x, In x l -> f x = false) -> List.filter f l = [].
Proof.
  induction l as [|x l IH]; intros H; [reflexivity|].
  simpl. rewrite (H x) by (left; reflexivity).
  apply IH. intros y Hy. apply H. right. exact Hy.
Qed.

Lemma slice_map {X Y} (f : X -> Y) (l : list X) (a b : Z) :
  slice (map f l) a b = map f (slice l a b).
Proof.
  unfold slice. rewrite len_map.
  rewrite <- firstn_map, <- skipn_map. reflexivity.
Qed.

(** A renaming of the labels that keeps different labels different
    keeps the boundaries. *)
Lemma boundaries_map (f : Z -> Z) (xs : list Z) :
  (forall x y, f x = f y -> x = y) ->
  boundaries (map f xs) = boundaries xs.
Proof.
  intros Hf. induction xs as [|a xs IH]; [reflexivity|].
  destruct xs as [|b xs]; [reflexivity|].
  change (boundaries (map f (a :: b :: xs)))
    with ((if negb (f a =? f b) then 1 else 0) + boundaries (map f (b :: xs))).
  change (boundaries (a :: b :: xs))
    with ((if negb (a =? b) then 1 else 0) + boundaries (b :: xs)).
  rewrite IH. f_equal.
  destruct (Z.eqb_spec a b) as [->|N].
  - rewrite Z.eqb_refl. reflexivity.
  - destruct (Z.eqb_spec (f a) (f b)) as [E|_]; [|reflexivity].
    apply Hf in E. contradiction.
Qed.

Lemma padded_map (f : Z -> Z) (fix_ : bool) (k : Z) (xs : list Z) :
  (fix_ = true -> f 0 = 0) ->
  padded fix_ k (map f xs) = map f (padded fix_ k xs).
Proof.
  intros H0. destruct fix_; [|reflexivity]. unfold padded.
  rewrite !map_app, map_repeat, H0 by reflexivity. reflexivity.
Qed.

Lemma mismatches_map (f g : Z -> Z) (ref hyp : list Z) (k : Z) :
  (forall x y, f x = f y -> x = y) -> (forall x y, g x = g y -> x = y) ->
  mismatches (map g ref) (map f hyp) k = mismatches ref hyp k.
Proof.
  intros Hf Hg. unfold mismatches. rewrite len_map. f_equal.
  apply List.filter_ext. intros i. unfold differ.
  rewrite !slice_map, (boundaries_map g), (boundaries_map f) by assumption.
  reflexivity.
Qed.

Lemma boundaries_short (xs : list Z) :
  (length xs <= 1)%nat -> boundaries xs = 0.
Proof.
  destruct xs as [|a [|b xs]]; simpl; intros H; [reflexivity | reflexivity | lia].
Qed.

(** A window of one unit at most holds no pair of units. *)
Lemma mismatches_trivial_window (ref hyp : list Z) (k : Z) :
  0 <= k <= 1 -> mismatches ref hyp k = 0.
Proof.
  intros Hk. unfold mismatches. rewrite filter_none; [reflexivity|].
  intros i Hi. apply xrange_nonneg in Hi. unfold differ.
  rewrite !slice_nonneg by lia.
  rewrite !boundaries_short; [reflexivity | |];
    rewrite length_firstn; lia.
Qed.

(** A window longer than the sequences is never placed. *)
Lemma mismatches_no_window (ref hyp : list Z) (k : Z) :
  len ref + 1 <= k -> mismatches ref hyp k = 0.
Proof.
  intros Hk. unfold mismatches. rewrite xrange_empty by lia. reflexivity.
Qed.

End SliceFacts.

Section WindowDiffLaws.

Variable rnd : Q -> Q.

(** What the laws below ask of the rounding of the context; the
    default context has all four. *)
Hypothesis rnd_zero : forall x : Q, rnd x == 0 <-> x == 0.
Hypothesis rnd_proper : forall x y : Q, x == y -> rnd x == rnd y.
Hypothesis rnd_one : rnd 1 == 1.
Hypothesis rnd_unit : forall x : Q, (0 <= x <= 1)%Q -> (0 <= rnd x <= 1)%Q.

Variable compute_window_size : list Z -> result Z.
Variable convert_masses_to_positions : list Z -> result (list Z).

Local Abbreviation window_diff :=
  (window_diff rnd compute_window_size convert_masses_to_positions).
Local Abbreviation window_diff_positions :=
  (window_diff_positions rnd compute_window_size).
Local Abbreviation positions := (positions convert_masses_to_positions).
Local Abbreviation window_size_used := (window_size_used compute_window_size).

Lemma score_defined (m n k : Z) (om : bool) :
  n <> k ->
  score rnd m n k om
  = Return (let win_diff := rnd (inject_Z m / inject_Z (n - k)) in
            if om then rnd (1 - win_diff) else win_diff).
Proof.
  intros Hn. unfold score, Dec.div. rewrite (Qeq_bool_of_int (n - k)).
  destruct (Z.eqb_spec (n - k) 0) as [?|_]; [lia|].
  destruct om; reflexivity.
Qed.

(** X1. A segmentation compared with itself scores 0, and 1 with
    [one_minus], for every window size other than the normaliser and
    with or without the fix. *)
Theorem window_diff_identity (p p' : list Z) (ws : option Z) (k : Z)
    (om fix_ c : bool) :
  positions c p = Return p' ->
  window_size_used ws p' = Return k ->
  normaliser fix_ p' (k - 1) <> k ->
  exists v, window_diff p p ws om fix_ c = Return v
            /\ v == (if om then 1 else 0)%Q.
Proof.
  intros Hp Hk Hn.
  rewrite (window_diff_convert rnd _ _ p p p' p') by assumption.
  rewrite (window_diff_positions_score rnd _ p' p' ws k) by (reflexivity || assumption).
  rewrite mismatches_same, score_defined by exact Hn.
  eexists. split; [reflexivity|]. cbv zeta.
  assert (H0 : rnd (inject_Z 0 / inject_Z (normaliser fix_ p' (k - 1) - k)) == 0).
  { apply rnd_zero. unfold Qdiv. change (inject_Z 0) with 0%Q. ring. }
  destruct om; [|exact H0].
  rewrite <- rnd_one at 2. apply rnd_proper. rewrite H0. ring.
Qed.

(** X2. [one_minus] changes nothing but the last step: the call with
    [one_minus] raises what the call without it raises, and returns 1
    minus what it returns. *)
Theorem window_diff_one_minus (h r : list Z) (ws : option Z) (fix_ c : bool) :
  window_diff h r ws true fix_ c
  = match window_diff h r ws false fix_ c with
    | Return v => Return (Dec.sub rnd 1 v)
    | Raise e => Raise e
    end.
Proof.
  unfold WindowDiff.window_diff.
  destruct (positions c r) as [r'|e]; [|reflexivity]. simpl.
  destruct (positions c h) as [h'|e]; [|reflexivity]. simpl.
  unfold WindowDiff.window_diff_positions.
  destruct (negb (len r' =? len h')); [reflexivity|].
  destruct (window_size_used ws r') as [k|e]; [|reflexivity]. simpl.
  destruct (slide _ k) as [m|e]; [|reflexivity]. simpl.
  destruct (Dec.div rnd _ _) as [v|e]; reflexivity.
Qed.

(** X3. Only the places where adjacent labels differ count: renaming
    the labels of the hypothesis and those of the reference, each by a
    function that keeps different labels different (and keeps 0 when
    the fix is on), leaves the result as it is. *)
Theorem window_diff_relabel (f g : Z -> Z) (h r : list Z) (k : Z)
    (om fix_ : bool) :
  (forall x y, f x = f y -> x = y) -> (forall x y, g x = g y -> x = y) ->
  (fix_ = true -> f 0 = 0 /\ g 0 = 0) ->
  window_diff (map f h) (map g r) (Some k) om fix_ false
  = window_diff h r (Some k) om fix_ false.
Proof.
  intros Hf Hg H0.
  rewrite (window_diff_convert rnd _ _ (map f h) (map g r) (map f h) (map g r)),
          (window_diff_convert rnd _ _ h r h r) by reflexivity.
  destruct (Nat.eq_dec (length r) (length h)) as [E|N].
  - rewrite (window_diff_positions_score rnd _ (map f h) (map g r) (Some k) k)
      by (rewrite ?length_map; (exact E || reflexivity)).
    rewrite (window_diff_positions_score rnd _ h r (Some k) k)
      by (exact E || reflexivity).
    rewrite !padded_map by (intros T; apply H0 in T; tauto).
    rewrite mismatches_map by assumption.
    unfold normaliser. rewrite len_map. reflexivity.
  - rewrite !window_diff_positions_mismatch
      by (rewrite ?length_map; exact N).
    reflexivity.
Qed.

(** X4. Without the fix the result, with or without [one_minus], lies
    between 0 and 1 whenever the division is defined, that is for every
    window size other than the length plus one. *)
Theorem window_diff_unit_interval (h r h' r' : list Z) (ws : option Z)
    (k : Z) (om c : bool) :
  positions c r = Return r' -> positions c h = Return h' ->
  length r' = length h' ->
  window_size_used ws r' = Return k -> k <> len r' + 1 ->
  exists v, window_diff h r ws om false c = Return v /\ (0 <= v <= 1)%Q.
Proof.
  intros Hr Hh E Hk Hn.
  rewrite (window_diff_convert rnd _ _ h r h' r') by assumption.
  rewrite (window_diff_positions_score rnd _ h' r' ws k) by assumption.
  simpl padded. unfold normaliser.
  rewrite score_defined by lia.
  eexists. split; [reflexivity|]. cbv zeta.
  assert (Hq : (0 <= inject_Z (mismatches r' h' k)
                     / inject_Z (len r' + 1 - k) <= 1)%Q).
  { destruct (Z.lt_ge_cases k (len r' + 1)) as [L|G].
    - pose proof (mismatches_le_windows r' h' k) as [Hm0 Hm1].
      assert (Hd : (0 < inject_Z (len r' + 1 - k))%Q)
        by (rewrite <- (Zlt_Qlt 0); lia).
      split.
      + apply Qle_shift_div_l; [exact Hd|]. rewrite Qmult_0_l.
        rewrite <- (Zle_Qle 0). exact Hm0.
      + apply Qle_shift_div_r; [exact Hd|]. rewrite Qmult_1_l.
        rewrite <- Zle_Qle. lia.
    - rewrite mismatches_no_window by lia.
      unfold Qdiv. change (inject_Z 0) with 0%Q. split; lra. }
  pose proof (rnd_unit _ Hq) as Hv.
  destruct om; [|exact Hv].
  apply rnd_unit. lra.
Qed.

(** X5. A window of one unit, or of none, sees no boundary, and a
    window longer than the sequences is never placed (without the
    fix): for such window sizes every two segmentations of the same
    length score 0. *)
Theorem window_diff_blind_window (h r h' r' : list Z) (ws : option Z)
    (k : Z) (fix_ c : bool) :
  positions c r = Return r' -> positions c h = Return h' ->
  length r' = length h' ->
  window_size_used ws r' = Return k ->
  normaliser fix_ r' (k - 1) <> k ->
  0 <= k <= 1 \/ (fix_ = false /\ len r' + 1 < k) ->
  exists v, window_diff h r ws false fix_ c = Return v /\ v == 0.
Proof.
  intros Hr Hh E Hk Hn Hblind.
  rewrite (window_diff_convert rnd _ _ h r h' r') by assumption.
  rewrite (window_diff_positions_score rnd _ h' r' ws k) by assumption.
  assert (Hm : mismatches (padded fix_ k r') (padded fix_ k h') k = 0).
  { destruct Hblind as [H01|[-> Hbig]].
    - apply mismatches_trivial_window. exact H01.
    - apply mismatches_no_window. simpl padded. lia. }
  rewrite Hm, score_defined by exact Hn.
  eexists. split; [reflexivity|]. cbv zeta.
  apply rnd_zero. unfold Qdiv. change (inject_Z 0) with 0%Q. ring.
Qed.

End WindowDiffLaws.

(** ** More on Fleiss' Pi *)

Section PiLaws.

Variable rnd : Q -> Q.

Hypothesis rnd_zero : forall x : Q, rnd x == 0 <-> x == 0.
Hypothesis rnd_proper : forall x y : Q, x == y -> rnd x == rnd y.
Hypothesis rnd_one : rnd 1 == 1.

Variable other : Type.
Variable __actual_agreement_linear__ :
  dataset -> gmap string value ->
  result (list Z * list Z * other * list (string * list (Z * Z))).

Local Abbreviation fleiss_pi :=
  (__fleiss_pi_linear__ rnd other __actual_agreement_linear__).

(** X6. For a dataset without coders the metric raises [IndexError],
    as soon as it looks for the first coder and before the agreement
    helper is called. *)
Theorem fleiss_pi_empty_dataset (kwargs : gmap string value) :
  is_Some (kwargs !! "return_parts"%string) ->
  fleiss_pi [] kwargs = Raise IndexError.
Proof.
  intros [rp Hrp]. unfold __fleiss_pi_linear__, getitem.
  rewrite Hrp. reflexivity.
Qed.

(** What is left of [finish] once the value of [return_parts] is put
    aside. *)
Lemma finish_modes (v : value) (nums dens : list Z)
    (cb : list (string * list (Z * Z))) :
  finish rnd v nums dens cb
  = match finish rnd (VBool true) nums dens cb with
    | Return (Parts a e) =>
        Return (if truthy v then Parts a e else Score (coefficient rnd a e))
    | Return (Score s) => Return (Score s)
    | Raise x => Raise x
    end.
Proof.
  unfold finish.
  destruct (Dec.div rnd (Dec.of_int (Py.sum nums)) (Dec.of_int (Py.sum dens)))
    as [a|x] eqn:Ea; [|reflexivity]. simpl.
  destruct (for_each (values cb) (coder_step rnd) []) as [ps|x]; [|reflexivity].
  simpl.
  destruct (Dec.div rnd (Dec.sum rnd ps) (Dec.of_int (len ps))) as [P|x];
    [|reflexivity]. simpl.
  unfold Dec.div in *.
  destruct (Qeq_bool (Dec.sub rnd 1 (Dec.square rnd P)) 0); [reflexivity|].
  simpl. destruct (truthy v); [reflexivity|].
  destruct (Qeq_bool (Dec.of_int (Py.sum dens)) 0); [discriminate|].
  injection Ea as <-. reflexivity.
Qed.

(** X8. The value of [return_parts] selects what is returned and
    nothing else: when the call that asks for the parts returns
    [A_a, A_e], the call that does not returns
    [(A_a - A_e) / (1 - A_e)], and when it raises, the other call raises
    the same exception; in particular asking for the parts does not
    avoid the failure of the last division. The agreement helper is
    called with [return_parts] set to [True] in both. *)
Theorem return_parts_selects (ds : dataset) (kw : gmap string value)
    (v1 v2 : value) :
  truthy v1 = true -> truthy v2 = false ->
  match fleiss_pi ds (<["return_parts"%string := v1]> kw) with
  | Return (Parts a e) =>
      fleiss_pi ds (<["return_parts"%string := v2]> kw)
      = Return (Score (coefficient rnd a e))
  | Return (Score _) => False
  | Raise x => fleiss_pi ds (<["return_parts"%string := v2]> kw) = Raise x
  end.
Proof.
  intros T1 T2. unfold __fleiss_pi_linear__, getitem.
  rewrite !lookup_insert_eq, !insert_insert_eq. simpl.
  destruct (first (values ds)) as [segs|x]; [|reflexivity]. simpl.
  destruct (unequal_items ds (len (keys segs))); [reflexivity|].
  destruct (__actual_agreement_linear__ ds _) as [[[[nums dens] o] cb]|x];
    [|reflexivity].
  simpl. rewrite (finish_modes v1), (finish_modes v2), T1, T2.
  destruct (finish rnd (VBool true) nums dens cb) as [[s|a e]|x] eqn:F;
    try reflexivity.
  unfold finish in F.
  destruct (Dec.div rnd _ _) in F; [|discriminate]. simpl in F.
  destruct (for_each _ _ _) in F; [|discriminate]. simpl in F.
  destruct (Dec.div rnd _ _) in F; [|discriminate]. simpl in F.
  destruct (Dec.div rnd _ _) in F; discriminate.
Qed.

Lemma div_zero_iff (x d : Q) : ~ d == 0 -> (x / d == 0 <-> x == 0).
Proof.
  intros Hd. split; intros H.
  - rewrite <- (Qmult_div_r x d Hd), H. ring.
  - rewrite H. unfold Qdiv. ring.
Qed.

(** X10. The coefficient is 0 exactly when the observed agreement
    equals the agreement expected by chance. *)
Theorem fleiss_pi_zero_iff_chance (ds : dataset) (kwargs : gmap string value)
    (rp : value) (n : Z) (nums dens : list Z) (x : other)
    (cb : list (string * list (Z * Z))) :
  kwargs !! "return_parts"%string = Some rp -> truthy rp = false ->
  ds <> [] -> equal_items ds n -> n <= 256 ->
  __actual_agreement_linear__ ds (<["return_parts"%string := VBool true]> kwargs)
  = Return (nums, dens, x, cb) ->
  ~ degenerate rnd dens (observations cb) ->
  exists v, fleiss_pi ds kwargs = Return (Score v)
            /\ (v == 0 <-> observed_agreement rnd nums dens
                           == expected_agreement rnd (observations cb)).
Proof.
  intros Hrp Hfalse Hne Heq Hn Hcall Hdeg.
  rewrite (fleiss_pi_finish rnd other _ ds kwargs rp n nums dens x cb)
    by assumption.
  rewrite (finish_returns rnd rnd_zero) by exact Hdeg.
  cbv zeta. rewrite Hfalse. eexists. split; [reflexivity|].
  assert (He : ~ expected_agreement rnd (observations cb) == 1)
    by (intros E; apply Hdeg; right; right; right; exact E).
  assert (Hd : ~ rnd (1 - expected_agreement rnd (observations cb)) == 0).
  { rewrite rnd_zero. intros E. apply He. lra. }
  unfold coefficient. rewrite rnd_zero, (div_zero_iff _ _ Hd), rnd_zero.
  split; intros E; lra.
Qed.

(** X9. When the numerators add up to what the denominators add up to,
    that is when the coders agree wherever they are compared, the
    coefficient is 1. *)
Theorem fleiss_pi_perfect_agreement (ds : dataset)
    (kwargs : gmap string value) (rp : value) (n : Z) (nums dens : list Z)
    (x : other) (cb : list (string * list (Z * Z))) :
  kwargs !! "return_parts"%string = Some rp -> truthy rp = false ->
  ds <> [] -> equal_items ds n -> n <= 256 ->
  __actual_agreement_linear__ ds (<["return_parts"%string := VBool true]> kwargs)
  = Return (nums, dens, x, cb) ->
  ~ degenerate rnd dens (observations cb) ->
  Py.sum nums = Py.sum dens ->
  exists v, fleiss_pi ds kwargs = Return (Score v) /\ v == 1.
Proof.
  intros Hrp Hfalse Hne Heq Hn Hcall Hdeg Hsum.
  rewrite (fleiss_pi_finish rnd other _ ds kwargs rp n nums dens x cb)
    by assumption.
  rewrite (finish_returns rnd rnd_zero) by exact Hdeg.
  cbv zeta. rewrite Hfalse. eexists. split; [reflexivity|].
  assert (Hs : ~ inject_Z (Py.sum dens) == 0).
  { intros E. apply Hdeg. left.
    apply (of_int_zero (Py.sum dens)). exact E. }
  assert (He : ~ expected_agreement rnd (observations cb) == 1)
    by (intros E; apply Hdeg; right; right; right; exact E).
  set (A_e := expected_agreement rnd (observations cb)) in *.
  assert (Ha : observed_agreement rnd nums dens == 1).
  { unfold observed_agreement. rewrite Hsum, <- rnd_one at 1.
    apply rnd_proper. field. exact Hs. }
  assert (Hd : ~ rnd (1 - A_e) == 0) by (rewrite rnd_zero; intros E; apply He; lra).
  unfold coefficient. rewrite <- rnd_one at 2. apply rnd_proper.
  rewrite (rnd_proper (observed_agreement rnd nums dens - A_e) (1 - A_e))
    by (rewrite Ha; reflexivity).
  field. exact Hd.
Qed.

End PiLaws.

(** ** The loops *)

Section Loops.

Lemma zip_unzip (u : list (Z * Z)) : zip (map fst u) (map snd u) = u.
Proof.
  unfold zip. induction u as [|[a b] u IH]; [reflexivity|].
  simpl. f_equal. exact IH.
Qed.

(** X11. The sliding loop never fails, whatever the pairs of units and
    the window size, also a negative one: every slice it unpacks holds
    two pairs. It counts at most one mismatch for each window. *)
Theorem slide_never_raises (units_ref_hyp : list (Z * Z)) (window_size : Z) :
  exists sum_differences,
    slide units_ref_hyp window_size = Return sum_differences
    /\ 0 <= sum_differences <= Z.max 0 (len units_ref_hyp - window_size + 1).
Proof.
  pose proof (slide_eq (map fst units_ref_hyp) (map snd units_ref_hyp)
                window_size) as Hs.
  rewrite zip_unzip in Hs. rewrite Hs by (rewrite !length_map; reflexivity).
  eexists. split; [reflexivity|].
  pose proof (mismatches_le_windows (map fst units_ref_hyp)
                (map snd units_ref_hyp) window_size) as H.
  rewrite len_map in H. exact H.
Qed.

Lemma for_each_app {X S} (xs ys : list X) (body : X -> S -> result S) (s : S) :
  for_each (xs ++ ys) body s = bind (for_each xs body s) (for_each ys body).
Proof.
  revert s. induction xs as [|x xs IH]; intros s; [reflexivity|].
  simpl. destruct (body x s) as [s'|e]; simpl; [apply IH | reflexivity].
Qed.

(** The two loops over the coders and their items are one loop over
    all observations, failures included. *)
Lemma coder_loop_flat (rnd : Q -> Q) (infos : list (list (Z * Z)))
    (acc : list Q) :
  for_each infos (coder_step rnd) acc
  = for_each (concat infos) (item_step rnd) acc.
Proof.
  revert acc. induction infos as [|info infos IH]; intros acc; [reflexivity|].
  simpl. rewrite for_each_app. unfold coder_step at 1.
  destruct (for_each info (item_step rnd) acc) as [acc'|e]; simpl;
    [apply IH | reflexivity].
Qed.

Section Flat.

Variable rnd : Q -> Q.
Variables other1 other2 : Type.
Variable helper1 :
  dataset -> gmap string value ->
  result (list Z * list Z * other1 * list (string * list (Z * Z))).
Variable helper2 :
  dataset -> gmap string value ->
  result (list Z * list Z * other2 * list (string * list (Z * Z))).

(** X12. The metric uses what the agreement helper returns for the
    coders only through the sequence of all (boundaries, total
    boundaries) pairs: the names of the coders, the way the pairs are
    grouped by coder and the third component of the helper's result
    change nothing, neither the value nor the failure. *)
Theorem fleiss_pi_flat_observations (ds : dataset)
    (kwargs : gmap string value) (nums dens : list Z)
    (x1 : other1) (x2 : other2) (cb1 cb2 : list (string * list (Z * Z))) :
  helper1 ds (<["return_parts"%string := VBool true]> kwargs)
  = Return (nums, dens, x1, cb1) ->
  helper2 ds (<["return_parts"%string := VBool true]> kwargs)
  = Return (nums, dens, x2, cb2) ->
  observations cb1 = observations cb2 ->
  __fleiss_pi_linear__ rnd other1 helper1 ds kwargs
  = __fleiss_pi_linear__ rnd other2 helper2 ds kwargs.
Proof.
  intros H1 H2 Hobs. unfold __fleiss_pi_linear__.
  destruct (getitem kwargs "return_parts") as [rp|e]; [|reflexivity]. simpl.
  destruct (first (values ds)) as [segs|e]; [|reflexivity]. simpl.
  destruct (unequal_items ds (len (keys segs))); [reflexivity|].
  rewrite H1, H2. simpl. unfold finish.
  rewrite !coder_loop_flat. unfold observations in Hobs. rewrite Hobs.
  reflexivity.
Qed.

End Flat.

End Loops.

(** ** Reading the segmentations backwards *)

Section Reversal.

Lemma boundaries_cons (a : Z) (xs : list Z) :
  boundaries (a :: xs)
  = match xs with
    | [] => 0
    | b :: _ => if negb (a =? b) then 1 else 0
    end + boundaries xs.
Proof. destruct xs; reflexivity. Qed.

Lemma boundaries_snoc (xs : list Z) (a : Z) :
  boundaries (xs ++ [a])
  = boundaries xs
    + match rev xs with
      | [] => 0
      | b :: _ => if negb (b =? a) then 1 else 0
      end.
Proof.
  induction xs as [|x xs IH]; [reflexivity|].
  destruct xs as [|y xs]; [simpl; lia|].
  change ((x :: y :: xs) ++ [a]) with (x :: (y :: xs) ++ [a]).
  rewrite (boundaries_cons x ((y :: xs) ++ [a])), (boundaries_cons x (y :: xs)).
  rewrite IH. cbn [app].
  change (rev (x :: y :: xs)) with (rev (y :: xs) ++ [x]).
  destruct (rev (y :: xs)) as [|z zs] eqn:R.
  - apply (f_equal (@length Z)) in R. rewrite length_rev in R. discriminate.
  - cbn [app]. lia.
Qed.

Lemma boundaries_rev (xs : list Z) : boundaries (rev xs) = boundaries xs.
Proof.
  induction xs as [|a xs IH]; [reflexivity|].
  cbn [rev]. rewrite boundaries_snoc, rev_involutive, IH, boundaries_cons.
  destruct xs as [|b xs]; [reflexivity|].
  rewrite (Z.eqb_sym b a). lia.
Qed.

(** A slice of the reversed list is the reversed mirror slice. *)
Lemma slice_rev (l : list Z) (a b : Z) :
  0 <= a <= b -> b <= len l ->
  slice (rev l) a b = rev (slice l (len l - b) (len l - a)).
Proof.
  intros Hab Hb. rewrite !slice_nonneg by lia.
  rewrite skipn_rev, firstn_rev, length_firstn, skipn_firstn_comm.
  unfold len in *. f_equal. f_equal; [|f_equal]; lia.
Qed.

Lemma rev_seq (m : nat) :
  rev (seq 0 m) = map (fun i => (m - 1 - i)%nat) (seq 0 m).
Proof.
  induction m as [|m IH]; [reflexivity|].
  rewrite seq_S at 2. rewrite map_app. cbn [map].
  rewrite <- cons_seq, <- seq_shift. cbn [rev].
  rewrite <- map_rev, IH, map_map. cbn [Nat.add].
  replace (S m - 1 - m)%nat with 0%nat by lia. f_equal.
  apply map_ext_in. intros i Hi. apply in_seq in Hi. lia.
Qed.

Lemma mismatches_rev (ref hyp : list Z) (k : Z) :
  0 <= k -> length ref = length hyp ->
  mismatches (rev ref) (rev hyp) k = mismatches ref hyp k.
Proof.
  intros Hk E. unfold mismatches, len. rewrite length_rev.
  set (N := Z.of_nat (length ref)).
  replace (xrange 0 (N - k + 1))
    with (xrange 0 (Z.of_nat (Z.to_nat (N - k + 1))))
    by (unfold xrange; f_equal; f_equal; lia).
  rewrite xrange_0. set (m := Z.to_nat (N - k + 1)).
  rewrite <- (length_rev (List.filter (differ ref hyp k) _)).
  rewrite <- List.filter_rev, <- map_rev, rev_seq, map_map.
  rewrite !filter_map_length. do 2 f_equal.
  apply List.filter_ext_in. intros i Hi. apply in_seq in Hi.
  unfold differ.
  assert (HN : Z.of_nat i + k <= N) by lia.
  rewrite !slice_rev
    by (unfold len; rewrite <- ?E; fold N; lia).
  rewrite !boundaries_rev. unfold len. rewrite <- E. fold N.
  replace (N - (Z.of_nat i + k)) with (Z.of_nat (m - 1 - i)) by lia.
  replace (N - Z.of_nat i) with (Z.of_nat (m - 1 - i) + k) by lia.
  reflexivity.
Qed.

Lemma padded_rev (fix_ : bool) (k : Z) (xs : list Z) :
  padded fix_ k (rev xs) = rev (padded fix_ k xs).
Proof.
  destruct fix_; [|reflexivity]. unfold padded.
  rewrite !rev_app_distr, rev_repeat, app_assoc. reflexivity.
Qed.

Variable rnd : Q -> Q.
Variable compute_window_size : list Z -> result Z.
Variable convert_masses_to_positions : list Z -> result (list Z).

(** X13. Read backwards, two segmentations score what they score read
    forwards, for every window size that is not negative, with or
    without the fix. *)
Theorem window_diff_reversed (h r : list Z) (k : Z) (om fix_ : bool) :
  0 <= k ->
  window_diff rnd compute_window_size convert_masses_to_positions
    (rev h) (rev r) (Some k) om fix_ false
  = window_diff rnd compute_window_size convert_masses_to_positions
      h r (Some k) om fix_ false.
Proof.
  intros Hk.
  rewrite (window_diff_convert rnd _ _ (rev h) (rev r) (rev h) (rev r)),
          (window_diff_convert rnd _ _ h r h r) by reflexivity.
  destruct (Nat.eq_dec (length r) (length h)) as [E|N].
  - rewrite (window_diff_positions_score rnd _ (rev h) (rev r) (Some k) k)
      by (rewrite ?length_rev; (exact E || reflexivity)).
    rewrite (window_diff_positions_score rnd _ h r (Some k) k)
      by (exact E || reflexivity).
    rewrite !padded_rev.
    rewrite mismatches_rev by (exact Hk || (apply length_padded; exact E)).
    unfold normaliser, len. rewrite length_rev. reflexivity.
  - rewrite !window_diff_positions_mismatch
      by (rewrite ?length_rev; exact N).
    reflexivity.
Qed.

End Reversal.

(** ** The laws at sample inputs *)

Section MoreRuns.

Local Abbreviation wd :=
  (window_diff default_rounding window_size_of masses_to_positions).
Local Abbreviation pi_ :=
  (__fleiss_pi_linear__ default_rounding unit actual_agreement).

Lemma window_diff_identity_witness :
  exists v, wd [1; 1; 2] [1; 1; 2] None true true false = Return v /\ v == 1.
Proof.
  apply (window_diff_identity default_rounding default_rounding_zero
           default_rounding_proper default_rounding_one
           window_size_of masses_to_positions
           [1; 1; 2] [1; 1; 2] None 2 true true false);
    [reflexivity | vm_compute; reflexivity | vm_compute; discriminate].
Defined.

Lemma window_diff_relabel_witness :
  wd (map (Z.mul 2) [1; 1; 2]) (map (Z.mul 3) [1; 2; 2]) (Some 2)
     false true false
  = wd [1; 1; 2] [1; 2; 2] (Some 2) false true false.
Proof.
  apply (window_diff_relabel default_rounding window_size_of
           masses_to_positions (Z.mul 2) (Z.mul 3) [1; 1; 2] [1; 2; 2] 2
           false true);
    [intros x y H; lia | intros x y H; lia | intros _; split; reflexivity].
Defined.

Lemma window_diff_unit_interval_witness :
  exists v, wd [1; 1; 2] [1; 2; 2] (Some 2) true false false = Return v
            /\ (0 <= v <= 1)%Q.
Proof.
  apply (window_diff_unit_interval default_rounding default_rounding_unit
           window_size_of masses_to_positions
           [1; 1; 2] [1; 2; 2] [1; 1; 2] [1; 2; 2] (Some 2) 2 true false);
    [reflexivity | reflexivity | reflexivity | reflexivity
    | vm_compute; discriminate].
Defined.

Lemma window_diff_blind_window_witness :
  exists v, wd [1; 1; 2] [1; 2; 2] (Some 1) false true false = Return v
            /\ v == 0.
Proof.
  apply (window_diff_blind_window default_rounding default_rounding_zero
           window_size_of masses_to_positions
           [1; 1; 2] [1; 2; 2] [1; 1; 2] [1; 2; 2] (Some 1) 1 true false);
    [reflexivity | reflexivity | reflexivity | reflexivity
    | vm_compute; discriminate | left; lia].
Defined.

Lemma fleiss_pi_empty_dataset_witness :
  pi_ [] want_score = Raise IndexError.
Proof.
  apply (fleiss_pi_empty_dataset default_rounding unit actual_agreement
           want_score).
  eexists. reflexivity.
Defined.

Lemma more_than_256_items_rejected_witness :
  pi_ many_items want_score
  = Raise (Exception "Unequal number of items contained.").
Proof.
  apply (more_than_256_items_rejected default_rounding unit actual_agreement
           many_items want_score "a"%string
           (map (fun n => (tally (S n), [1; 1])) (seq 0 257))
           [("b"%string, map (fun n => (tally (S n), [1; 1])) (seq 0 257))]);
    [eexists; reflexivity | reflexivity | vm_compute; reflexivity].
Defined.

Lemma return_parts_selects_witness :
  match pi_ two_coders (<["return_parts"%string := VBool true]> ∅) with
  | Return (Parts a e) =>
      pi_ two_coders (<["return_parts"%string := VBool false]> ∅)
      = Return (Score (coefficient default_rounding a e))
  | Return (Score _) => False
  | Raise x =>
      pi_ two_coders (<["return_parts"%string := VBool false]> ∅) = Raise x
  end.
Proof.
  apply (return_parts_selects default_rounding unit actual_agreement
           two_coders ∅ (VBool true) (VBool false)); reflexivity.
Defined.

Lemma fleiss_pi_zero_iff_chance_witness :
  exists v, pi_ two_coders want_score = Return (Score v)
            /\ (v == 0 <->
                observed_agreement default_rounding [7; 8] [9; 9]
                == expected_agreement default_rounding
                     [(1, 9); (1, 9); (1, 9); (2, 9)]).
Proof.
  apply (fleiss_pi_zero_iff_chance default_rounding default_rounding_zero
           unit actual_agreement two_coders want_score (VBool false) 2
           [7; 8] [9; 9] tt
           [("a"%string, [(1, 9); (1, 9)]); ("b"%string, [(1, 9); (2, 9)])]);
    [ reflexivity | reflexivity | discriminate | repeat constructor | lia
    | vm_compute; reflexivity
    | apply not_degenerate;
        [ vm_compute; discriminate | repeat constructor; discriminate
        | discriminate | vm_compute; discriminate ] ].
Defined.

Lemma fleiss_pi_perfect_agreement_witness :
  exists v, pi_ agreeing_coders want_score = Return (Score v) /\ v == 1.
Proof.
  apply (fleiss_pi_perfect_agreement default_rounding default_rounding_zero
           default_rounding_proper default_rounding_one
           unit actual_agreement agreeing_coders want_score (VBool false) 2
           [9; 9] [9; 9] tt
           [("a"%string, [(1, 9); (1, 9)]); ("b"%string, [(1, 9); (1, 9)])]);
    [ reflexivity | reflexivity | discriminate | repeat constructor | lia
    | vm_compute; reflexivity
    | apply not_degenerate;
        [ vm_compute; discriminate | repeat constructor; discriminate
        | discriminate | vm_compute; discriminate ]
    | reflexivity ].
Defined.

Lemma window_diff_reversed_witness :
  wd (rev [1; 1; 2; 3]) (rev [1; 2; 2; 2]) (Some 2) false true false
  = wd [1; 1; 2; 3] [1; 2; 2; 2] (Some 2) false true false.
Proof.
  apply (window_diff_reversed default_rounding window_size_of
           masses_to_positions [1; 1; 2; 3] [1; 2; 2; 2] 2 false true).
  lia.
Defined.

Lemma fleiss_pi_flat_observations_witness :
  pi_ two_coders want_score
  = __fleiss_pi_linear__ default_rounding nat
      (fun _ _ => Return ([7; 8], [9; 9], 0%nat,
                          [("all"%string, [(1, 9); (1, 9); (1, 9); (2, 9)])]))
      two_coders want_score.
Proof.
  apply (fleiss_pi_flat_observations default_rounding unit nat
           actual_agreement
           (fun _ _ => Return ([7; 8], [9; 9], 0%nat,
                               [("all"%string,
                                 [(1, 9); (1, 9); (1, 9); (2, 9)])]))
           two_coders want_score [7; 8] [9; 9] tt 0%nat
           [("a"%string, [(1, 9); (1, 9)]); ("b"%string, [(1, 9); (2, 9)])]
           [("all"%string, [(1, 9); (1, 9); (1, 9); (2, 9)])]);
    [vm_compute; reflexivity | reflexivity | reflexivity].
Defined.

End MoreRuns.
